(** * swapi.js: the fetch-and-cache layer, the demo orchestrator and the
      presentation server, as a shallow embedding.

    The script keeps all of its data in module-level variables (the cache
    object and four counters), talks to the network through Node's event
    callbacks and runs its display routines as async functions.  The
    embedding follows that shape:

    - JSON values are an inductive type; the cache is a finite map from
      endpoint strings to parsed values, read through the prototype chain
      of the object literal it is created from.  Every parsed value
      carries the identity of the object [JSON.parse] allocated for it,
      because [displayFilms] sorts an array inside such an object in
      place while the cache still refers to it;
    - one network request is driven by the list of events Node delivers
      to the callbacks that [fetchResource] registers;
    - an async function is a resumable computation that suspends exactly
      where the source awaits a pending request, so that sequential runs
      and overlapping runs can both be executed. *)

From Stdlib Require Import ZArith List Bool Ascii String Lia Sorted Permutation.
From stdpp Require Import base option list gmap strings pretty.

Set Warnings "-register-all".
Local Open Scope string_scope.
Local Open Scope Z_scope.

(** ** JSON values *)

(** What [JSON.parse] can return.  Numbers are kept as integers, and
    [JNum n] stands for the double nearest to [n], which is what the
    runtime makes of the digits: the script does no arithmetic on a
    number it received, it only tests one for being zero (truthiness),
    compares it, or turns it into text. *)
Inductive json : Type :=
| JNull
| JBool (b : bool)
| JNum (n : Z)
| JStr (s : string)
| JArr (items : list json)
| JObj (props : list (string * json)).

(** JavaScript's ToBoolean on a JSON value. *)
Definition truthy (v : json) : bool :=
  match v with
  | JNull => false
  | JBool b => b
  | JNum n => negb (n =? 0)
  | JStr s => negb (String.eqb s "")
  | JArr _ => true
  | JObj _ => true
  end.

(** Own property of a parsed object, first binding wins. *)
Fixpoint assoc (k : string) (ps : list (string * json)) : option json :=
  match ps with
  | [] => None
  | (k', v) :: ps' => if String.eqb k k' then Some v else assoc k ps'
  end.

(** ** Numbers *)

(** The Numbers the script can meet that are not [NaN]: the integers
    among the doubles, and the two infinities. *)
Inductive number : Type :=
| Finite (n : Z)
| Infinite (negative : bool).

(** The double nearest to a non-negative integer: the integer rounded
    to 53 significant bits, a tie going to the even significand; [None]
    where that is beyond the largest double. *)
Definition nearest_double (m : Z) : option Z :=
  let bits := Z.log2 m + 1 in
  if bits <=? 53 then Some m
  else
    let e := bits - 53 in
    let q := Z.shiftr m e in
    let r := m - Z.shiftl q e in
    let half := Z.shiftl 1 (e - 1) in
    let q := if (half <? r) || ((half =? r) && Z.odd q) then q + 1 else q in
    let v := Z.shiftl q e in
    if Z.shiftl 1 1024 <=? v then None else Some v.

(** The Number for a mathematical integer. *)
Definition to_number (n : Z) : number :=
  match nearest_double (Z.abs n) with
  | Some x => Finite (if n <? 0 then - x else x)
  | None => Infinite (n <? 0)
  end.

(** [x > bound] *)
Definition above (bound : Z) (x : number) : bool :=
  match x with
  | Finite n => bound <? n
  | Infinite negative => negb negative
  end.

Definition rounds_to (x v : Z) : bool :=
  match nearest_double v with
  | Some y => y =? x
  | None => false
  end.

(** Number::toString chooses, for a double [x], the decimal with the
    fewest significant digits that still denotes [x]; of several, the
    one nearest to [x], and of two equally near the one whose last digit
    is even.  [k] is the number of significant digits tried, [width] the
    number of digits of [x].  Seventeen digits always suffice. *)
Fixpoint shortest_decimal (tries : nat) (k x width : Z) : Z :=
  match tries with
  | O => x
  | S tries' =>
      let unit := 10 ^ Z.max 0 (width - k) in
      let low := x / unit * unit in
      let high := low + unit in
      match rounds_to x low, rounds_to x high with
      | true, true =>
          if x - low <? high - x then low
          else if high - x <? x - low then high
          else if Z.even (low / unit) then low else high
      | true, false => low
      | false, true => high
      | false, false => shortest_decimal tries' (k + 1) x width
      end
  end.

(** A text without the zeros it ends with. *)
Fixpoint strip_zeros (s : string) : string :=
  match s with
  | EmptyString => EmptyString
  | String c s' =>
      let t := strip_zeros s' in
      if String.eqb t "" && Ascii.eqb c "0" then "" else String c t
  end.

(** The text of a double that is a non-negative integer: its digits,
    and from 10^21 on the exponent form. *)
Definition decimal_text (x : Z) : string :=
  let shown :=
    pretty (shortest_decimal 17 1 x (Z.of_nat (String.length (pretty x)))) in
  let n := Z.of_nat (String.length shown) in
  if n <=? 21 then shown
  else
    match strip_zeros shown with
    | String c EmptyString => String c ("e+" +:+ pretty (n - 1))
    | String c more => String c ("." +:+ more +:+ "e+" +:+ pretty (n - 1))
    | EmptyString => shown
    end.

(** Number::toString, radix 10. *)
Definition Number_toString (x : number) : string :=
  match x with
  | Finite n => if n <? 0 then "-" +:+ decimal_text (- n) else decimal_text n
  | Infinite negative => if negative then "-Infinity" else "Infinity"
  end.

(** ** The cache object *)

(** [let cache = {}] is an ordinary object, so a read [cache[k]] that
    finds no own property continues in [Object.prototype].  These are
    the names found there; each is a function, except [__proto__] whose
    getter returns the prototype object itself.  All are truthy. *)
Definition object_prototype_keys : list string :=
  [ "constructor"; "__defineGetter__"; "__defineSetter__"; "hasOwnProperty";
    "__lookupGetter__"; "__lookupSetter__"; "isPrototypeOf";
    "propertyIsEnumerable"; "toString"; "valueOf"; "__proto__";
    "toLocaleString" ].

Definition inherited (k : string) : bool :=
  existsb (String.eqb k) object_prototype_keys.

(** A value read from the cache or produced by a fetch: a parsed JSON
    value [v], held in the object that was allocated as number [oid], or
    a member of [Object.prototype] reached through the prototype chain.
    Two references are to the same object when their [oid]s agree. *)
Inductive jsval : Type :=
| JV (oid : nat) (v : json)
| Builtin (name : string).

Definition jsval_truthy (v : jsval) : bool :=
  match v with
  | JV _ j => truthy j
  | Builtin _ => true
  end.

(** [cache[endpoint]]; [None] is [undefined]. *)
Definition cache_get (c : gmap string (nat * json)) (endpoint : string)
  : option jsval :=
  match c !! endpoint with
  | Some (oid, v) => Some (JV oid v)
  | None => if inherited endpoint then Some (Builtin endpoint) else None
  end.

(** The test [if (cache[endpoint])] of [fetchResource]. *)
Definition cache_hit (c : gmap string (nat * json)) (endpoint : string)
  : option jsval :=
  match cache_get c endpoint with
  | Some v => if jsval_truthy v then Some v else None
  | None => None
  end.

(** ** Errors and console output *)

(** The failures a fetch or a display routine can raise.  The names are
    those of the specification; the script raises plain [Error] objects
    (and the runtime a [SyntaxError] or [TypeError]). *)
Inductive error : Type :=
| HttpError (status : Z)
| ParseError
| NetworkError (message : string)
| TimeoutError (endpoint : string)
| TypeError.

(** One argument of a [console.log] call. *)
Inductive logarg : Type :=
| LText (s : string)
| LNum (n : Z)
| LVal (v : option json)
| LMessage (e : error).

(** ** Process-wide state *)

Record state : Type := mkState {
  cache : gmap string (nat * json);
  errorCount : Z;
  fetchCount : Z;
  totalDataSize : Z;
  lastCharacterId : Z;
  debugMode : bool;
  timeout : number;
  (** lines written with [console.log] / [console.error], oldest first *)
  console : list (list logarg);
  (** endpoints handed to [https.get], oldest first *)
  requests : list string;
  (** how many values [JSON.parse] has produced so far *)
  allocated : nat
}.

Definition DEFAULT_TIMEOUT : number := Finite 5000.
Definition LARGE_POPULATION : Z := 1000000000.
Definition LARGE_DIAMETER : Z := 10000.
Definition STARSHIPS_LIMIT : nat := 3.
Definition MAX_VEHICLE_ID : Z := 4.

(** The module-level initialisers of lines 11-18. *)
Definition initial : state :=
  {| cache := ∅; errorCount := 0; fetchCount := 0; totalDataSize := 0;
     lastCharacterId := 1; debugMode := true; timeout := DEFAULT_TIMEOUT;
     console := []; requests := []; allocated := 0 |}.

Definition set_cache (c : gmap string (nat * json)) (st : state) : state :=
  {| cache := c; errorCount := errorCount st; fetchCount := fetchCount st;
     totalDataSize := totalDataSize st; lastCharacterId := lastCharacterId st;
     debugMode := debugMode st; timeout := timeout st;
     console := console st; requests := requests st;
     allocated := allocated st |}.

Definition incr_errorCount (st : state) : state :=
  {| cache := cache st; errorCount := errorCount st + 1;
     fetchCount := fetchCount st;
     totalDataSize := totalDataSize st; lastCharacterId := lastCharacterId st;
     debugMode := debugMode st; timeout := timeout st;
     console := console st; requests := requests st;
     allocated := allocated st |}.

Definition incr_fetchCount (st : state) : state :=
  {| cache := cache st; errorCount := errorCount st;
     fetchCount := fetchCount st + 1;
     totalDataSize := totalDataSize st; lastCharacterId := lastCharacterId st;
     debugMode := debugMode st; timeout := timeout st;
     console := console st; requests := requests st;
     allocated := allocated st |}.

Definition add_totalDataSize (n : Z) (st : state) : state :=
  {| cache := cache st; errorCount := errorCount st;
     fetchCount := fetchCount st;
     totalDataSize := totalDataSize st + n;
     lastCharacterId := lastCharacterId st;
     debugMode := debugMode st; timeout := timeout st;
     console := console st; requests := requests st;
     allocated := allocated st |}.

Definition incr_lastCharacterId (st : state) : state :=
  {| cache := cache st; errorCount := errorCount st;
     fetchCount := fetchCount st;
     totalDataSize := totalDataSize st;
     lastCharacterId := lastCharacterId st + 1;
     debugMode := debugMode st; timeout := timeout st;
     console := console st; requests := requests st;
     allocated := allocated st |}.

Definition log (line : list logarg) (st : state) : state :=
  {| cache := cache st; errorCount := errorCount st;
     fetchCount := fetchCount st;
     totalDataSize := totalDataSize st; lastCharacterId := lastCharacterId st;
     debugMode := debugMode st; timeout := timeout st;
     console := console st ++ [line]; requests := requests st;
     allocated := allocated st |}.

Definition record_request (endpoint : string) (st : state) : state :=
  {| cache := cache st; errorCount := errorCount st;
     fetchCount := fetchCount st;
     totalDataSize := totalDataSize st; lastCharacterId := lastCharacterId st;
     debugMode := debugMode st; timeout := timeout st;
     console := console st; requests := requests st ++ [endpoint];
     allocated := allocated st |}.

Definition incr_allocated (st : state) : state :=
  {| cache := cache st; errorCount := errorCount st;
     fetchCount := fetchCount st;
     totalDataSize := totalDataSize st; lastCharacterId := lastCharacterId st;
     debugMode := debugMode st; timeout := timeout st;
     console := console st; requests := requests st;
     allocated := S (allocated st) |}.

(** [if (debugMode) console.log(...)] *)
Definition debug_log (line : list logarg) (st : state) : state :=
  if debugMode st then log line st else st.

(** ** One network request *)

(** What Node delivers to the callbacks registered by [fetchResource]:
    the ['response'] event with its status code, ['data'] and ['end'] on
    the response, ['error'] on the request, and the socket timeout set
    with [request.setTimeout(timeout, ...)], which the runtime raises
    once the connection has been idle for [timeout] milliseconds.  Which
    events arrive, and in which order, is decided by the network and the
    runtime, not by the script: the timer is the runtime's, the model
    does not look at the value of [timeout] and takes it to be one that
    [request.setTimeout] accepts. *)
Inductive event : Type :=
| Response (statusCode : Z)
| Data (chunk : string)
| End
| NetError (message : string)
| Timeout.

(** The variables captured by the closures of lines 26-63, and the state
    of the promise they settle. *)
Record request : Type := mkRequest {
  (** the one-time ['response'] callback has run *)
  responded : bool;
  (** the ['data'] and ['end'] listeners of lines 35-36 are attached *)
  listening : bool;
  responseData : string;
  (** the one-time timeout callback has run, so [request.abort()] was called *)
  aborted : bool;
  (** first [resolve] or [reject]; later ones have no effect *)
  settled : option (nat * json + error)
}.

Definition new_request : request :=
  {| responded := false; listening := false; responseData := "";
     aborted := false; settled := None |}.

Definition settle (r : nat * json + error) (rq : request) : request :=
  {| responded := responded rq; listening := listening rq;
     responseData := responseData rq; aborted := aborted rq;
     settled := match settled rq with Some old => Some old | None => Some r end |}.

Definition resolve (oid : nat) (j : json) : request -> request :=
  settle (inl (oid, j)).
Definition reject (e : error) : request -> request := settle (inr e).

(** ** Async functions as resumable computations *)

(** A computation is a sequence of steps on the process state, each
    giving a result to the rest; it may suspend on the request it has
    just issued, and is then resumed with the events of that request.
    Nothing else runs between two suspensions.  [Never] awaits a promise
    that nothing settles. *)
Inductive proc (A : Type) : Type :=
| Ret (a : A)
| Throw (e : error)
| Act {B : Type} (f : state -> state * B) (k : B -> proc A)
| Await (endpoint : string) (k : list event -> proc A)
| Never.
Arguments Ret {A} a.
Arguments Throw {A} e.
Arguments Act {A B} f k.
Arguments Await {A} endpoint k.
Arguments Never {A}.

Fixpoint bind {A B : Type} (p : proc A) (f : A -> proc B) : proc B :=
  match p with
  | Ret a => f a
  | Throw e => Throw e
  | Act g k => Act g (fun b => bind (k b) f)
  | Await ep k => Await ep (fun evs => bind (k evs) f)
  | Never => Never
  end.

(** [try { p } catch (e) { h e }] *)
Fixpoint try_catch {A : Type} (p : proc A) (h : error -> proc A) : proc A :=
  match p with
  | Ret a => Ret a
  | Throw e => h e
  | Act g k => Act g (fun b => try_catch (k b) h)
  | Await ep k => Await ep (fun evs => try_catch (k evs) h)
  | Never => Never
  end.

(** Reading the module-level variables. *)
Definition Get {A : Type} (k : state -> proc A) : proc A :=
  Act (fun st => (st, st)) k.

(** Assigning to them. *)
Definition modify (f : state -> state) : proc unit :=
  Act (fun st => (f st, tt)) Ret.

Declare Scope proc_scope.
Delimit Scope proc_scope with proc.
Notation "'let!' x := p 'in' q" := (bind p (fun x => q))
  (at level 10, x name, p at level 100, q at level 200) : proc_scope.
Notation "p '>>' q" := (bind p (fun _ => q))
  (at level 100, q at level 200, right associativity) : proc_scope.

(** How a call ends: with a value, with an exception, or not at all
    (it is still awaiting a request). *)
Inductive outcome (A : Type) : Type :=
| Returned (a : A)
| Thrown (e : error)
| Blocked.
Arguments Returned {A} a.
Arguments Thrown {A} e.
Arguments Blocked {A}.

(** Running one call to completion, alone: [net] lists, in order, the
    events of the requests it will issue; the part of [net] that was
    not needed is handed back. *)
Fixpoint exec {A : Type} (p : proc A) (st : state) (net : list (list event))
  : state * outcome A * list (list event) :=
  match p with
  | Ret a => (st, Returned a, net)
  | Throw e => (st, Thrown e, net)
  | Act f k => let '(st', b) := f st in exec (k b) st' net
  | Await _ k =>
      match net with
      | [] => (st, Blocked, net)
      | evs :: net' => exec (k evs) st net'
      end
  | Never => (st, Blocked, net)
  end.

Definition run {A : Type} (p : proc A) (st : state) (net : list (list event))
  : state * outcome A :=
  fst (exec p st net).

(** Running a call up to its next suspension point. *)
Fixpoint advance {A : Type} (p : proc A) (st : state) : state * proc A :=
  match p with
  | Act f k => let '(st', b) := f st in advance (k b) st'
  | _ => (st, p)
  end.

(** ** The runtime's coercions, as far as the script relies on them *)

(** A property read [v.k] on a JSON value other than [null], for the
    property names the script uses ([None] is [undefined]).  Of those
    names only [length] exists on a prototype, for strings and arrays. *)
Definition prop (v : json) (k : string) : option json :=
  match v with
  | JObj ps => assoc k ps
  | JStr s => if String.eqb k "length" then Some (JNum (Z.of_nat (String.length s))) else None
  | JArr items => if String.eqb k "length" then Some (JNum (Z.of_nat (length items))) else None
  | _ => None
  end.

(** [v?.length] *)
Definition optional_length (v : option json) : option json :=
  match v with
  | None | Some JNull => None
  | Some x => prop x "length"
  end.

(** ToString on a JSON value; [None] where it raises a TypeError.
    Arrays are joined with commas, [null] elements printing as nothing;
    a parsed object prints as [[object Object]] unless it has an own
    [toString] property, which a JSON value cannot make callable. *)
Fixpoint ToString (v : json) : option string :=
  match v with
  | JNull => Some "null"
  | JBool true => Some "true"
  | JBool false => Some "false"
  | JNum n => Some (Number_toString (to_number n))
  | JStr s => Some s
  | JArr items =>
      (fix join (l : list json) : option string :=
         match l with
         | [] => Some ""
         | x :: l' =>
             let elem := match x with JNull => Some "" | _ => ToString x end in
             match l' with
             | [] => elem
             | _ => match elem, join l' with
                    | Some a, Some b => Some (a +:+ "," +:+ b)
                    | _, _ => None
                    end
             end
         end) items
  | JObj ps =>
      match assoc "toString" ps with
      | Some _ => None
      | None => Some "[object Object]"
      end
  end.

(** ToString on a value that may be [undefined]. *)
Definition ToString_opt (v : option json) : option string :=
  match v with
  | None => Some "undefined"
  | Some x => ToString x
  end.

(** Characters are UTF-16 code units below 256; these are the white
    space characters among them. *)
Definition is_space (c : ascii) : bool :=
  let n := nat_of_ascii c in
  existsb (Nat.eqb n) [9; 10; 11; 12; 13; 32; 160]%nat.

Fixpoint skip_space (s : string) : string :=
  match s with
  | String c s' => if is_space c then skip_space s' else s
  | EmptyString => s
  end.

Definition digit_value (radix : Z) (c : ascii) : option Z :=
  let n := Z.of_nat (nat_of_ascii c) in
  let d := if (48 <=? n) && (n <=? 57) then n - 48
           else if (97 <=? n) && (n <=? 122) then n - 87
           else if (65 <=? n) && (n <=? 90) then n - 55
           else radix in
  if d <? radix then Some d else None.

(** The longest prefix of digits, read in the given radix; [acc] is
    [None] until a digit has been seen. *)
Fixpoint digits (radix : Z) (s : string) (acc : option Z) : option Z :=
  match s with
  | EmptyString => acc
  | String c s' =>
      match digit_value radix c with
      | Some d => digits radix s' (Some (default 0 acc * radix + d))
      | None => acc
      end
  end.

(** [parseInt(s)] with no radix argument; [None] is [NaN].  The result
    is the Number for the integer the digits denote. *)
Definition parseInt (s : string) : option number :=
  let s := skip_space s in
  let '(negative, s) :=
    match s with
    | String "-" s' => (true, s')
    | String "+" s' => (false, s')
    | _ => (false, s)
    end in
  let '(radix, s) :=
    match s with
    | String "0" (String "x" s') => (16, s')
    | String "0" (String "X" s') => (16, s')
    | _ => (10, s)
    end in
  match digits radix s None with
  | Some n => Some (to_number (if negative then - n else n))
  | None => None
  end.

Local Open Scope proc_scope.

(** ** The Fetch Client and the display routines *)

Section Runtime.

(** The two serialisation built-ins of the runtime.  [JSON_parse] is
    [None] where [JSON.parse] throws. *)
Variable JSON_parse : string -> option json.
Variable JSON_stringify : json -> string.

(** *** The callbacks of [fetchResource] (lines 29-62) *)

(** The ['response'] callback passed to [https.get]. *)
Definition on_response (statusCode : Z) (st : state) (rq : request)
  : state * request :=
  let rq := {| responded := true; listening := listening rq;
               responseData := responseData rq; aborted := aborted rq;
               settled := settled rq |} in
  if 400 <=? statusCode then
    (incr_errorCount st, reject (HttpError statusCode) rq)
  else
    (st, {| responded := responded rq; listening := true;
            responseData := responseData rq; aborted := aborted rq;
            settled := settled rq |}).

(** [chunk => responseData += chunk] *)
Definition on_data (chunk : string) (rq : request) : request :=
  {| responded := responded rq; listening := listening rq;
     responseData := responseData rq +:+ chunk; aborted := aborted rq;
     settled := settled rq |}.

(** The ['end'] listener: parse, store, resolve; or count and reject. *)
Definition on_end (endpoint : string) (st : state) (rq : request)
  : state * request :=
  match JSON_parse (responseData rq) with
  | Some j =>
      let oid := allocated st in
      let st := incr_allocated st in
      let st := set_cache (<[endpoint := (oid, j)]> (cache st)) st in
      let rq := resolve oid j rq in
      let st := debug_log [LText ("Successfully fetched data for " +:+ endpoint)] st in
      let st := debug_log [LText ("Cache size: " +:+
                                  pretty (Z.of_nat (size (cache st))))] st in
      (st, rq)
  | None => (incr_errorCount st, reject ParseError rq)
  end.

(** The ['error'] listener of the request. *)
Definition on_error (message : string) (st : state) (rq : request)
  : state * request :=
  (incr_errorCount st, reject (NetworkError message) rq).

(** The callback given to [request.setTimeout]. *)
Definition on_timeout (endpoint : string) (st : state) (rq : request)
  : state * request :=
  let rq := {| responded := responded rq; listening := listening rq;
               responseData := responseData rq; aborted := true;
               settled := settled rq |} in
  (incr_errorCount st, reject (TimeoutError endpoint) rq).

(** Dispatch of one event to the listeners that are registered for it.
    The ['response'] and timeout callbacks are one-time listeners; the
    ['data'] and ['end'] listeners exist only once a response with a
    status below 400 has been seen. *)
Definition deliver (endpoint : string) (ev : event) (st : state) (rq : request)
  : state * request :=
  match ev with
  | Response statusCode =>
      if responded rq then (st, rq) else on_response statusCode st rq
  | Data chunk =>
      if listening rq then (st, on_data chunk rq) else (st, rq)
  | End =>
      if listening rq then on_end endpoint st rq else (st, rq)
  | NetError message => on_error message st rq
  | Timeout =>
      if aborted rq then (st, rq) else on_timeout endpoint st rq
  end.

Fixpoint deliver_all (endpoint : string) (evs : list event)
  (st : state) (rq : request) : state * request :=
  match evs with
  | [] => (st, rq)
  | ev :: evs' =>
      let '(st', rq') := deliver endpoint ev st rq in
      deliver_all endpoint evs' st' rq'
  end.

(** What the awaiting caller sees once the promise is settled. *)
Definition await_promise (rq : request) : proc jsval :=
  match settled rq with
  | Some (inl (oid, j)) => Ret (JV oid j)
  | Some (inr e) => Throw e
  | None => Never
  end.

(** [fetchResource] (lines 20-64).  All events of the request are
    handled at the point where the caller is resumed, those that arrive
    after the promise has been settled included: they can no longer
    change what the caller sees, but their callbacks still run. *)
Definition fetchResource (endpoint : string) : proc jsval :=
  Get (fun st =>
    match cache_hit (cache st) endpoint with
    | Some v =>
        modify (debug_log [LText "Using cached data for"; LText endpoint]) >>
        Ret v
    | None =>
        modify (record_request endpoint) >>
        Await endpoint (fun evs =>
          Act (fun st' => deliver_all endpoint evs st' new_request)
              await_promise)
    end).

(** *** Helpers shared by the display routines *)

(** The comparison [k < v] where [v] is a string, an array or an object:
    the runtime converts [v] to a number first.  [None] where that
    conversion raises a TypeError. *)
Variable js_lt : Z -> json -> option bool.

(** [Date.parse]: the time value in milliseconds, [None] for [NaN]. *)
Variable Date_parse : string -> option Z.

(** [Array.prototype.sort] with a comparator that is not a consistent
    ordering of the elements: the standard leaves the order it produces
    to the implementation.  The elements are given with the time values
    the comparator computes for them. *)
Variable sort_undated : list (option Z * json) -> list json.

(** [k < v] for a value that may be [undefined] (which converts to
    [NaN], so the comparison is false). *)
Definition lt_value (k : Z) (v : option json) : option bool :=
  match v with
  | None => Some false
  | Some JNull => Some (k <? 0)
  | Some (JBool b) => Some (k <? (if b then 1 else 0))
  | Some (JNum n) => Some (k <? n)
  | Some x => js_lt k x
  end.

Definition nl : string := String (ascii_of_nat 10) "".

Definition say (line : list logarg) : proc unit := modify (log line).

(** A property read on [null] raises a TypeError. *)
Definition non_null (v : json) : proc unit :=
  match v with
  | JNull => Throw TypeError
  | _ => Ret tt
  end.

(** The object of a property read that may be [undefined] or [null]. *)
Definition defined (v : option json) : proc json :=
  match v with
  | None | Some JNull => Throw TypeError
  | Some x => Ret x
  end.

(** A template literal: the pieces are converted with ToString. *)
Fixpoint template (pieces : list (option string)) : proc string :=
  match pieces with
  | [] => Ret ""
  | None :: _ => Throw TypeError
  | Some s :: rest => let! t := template rest in Ret (s +:+ t)
  end.

(** [if (x?.length > 0) body] *)
Definition when_nonempty (x : option json) (body : proc unit) : proc unit :=
  match lt_value 0 (optional_length x) with
  | None => Throw TypeError
  | Some true => body
  | Some false => Ret tt
  end.

(** [totalDataSize += JSON.stringify(v).length], giving back the value
    for the property reads that follow.  [JSON.stringify] of a function
    is [undefined], whose [length] cannot be read; [Object.prototype]
    itself serialises as the two characters of an empty object, and for
    the property names the script reads it behaves as one. *)
Definition measured (v : jsval) : proc json :=
  match v with
  | JV _ j =>
      modify (add_totalDataSize (Z.of_nat (String.length (JSON_stringify j)))) >>
      Ret j
  | Builtin name =>
      if String.eqb name "__proto__"
      then modify (add_totalDataSize 2) >> Ret (JObj [])
      else Throw TypeError
  end.

Fixpoint forEach (f : json -> Z -> proc unit) (items : list json) (i : Z)
  : proc unit :=
  match items with
  | [] => Ret tt
  | x :: rest => f x i >> forEach f rest (i + 1)
  end.

(** *** [displayCharacterData] (lines 66-77) *)

Definition displayCharacterData : proc unit :=
  Get (fun st =>
    let! r := fetchResource ("people/" +:+ pretty (lastCharacterId st)) in
    let! character := measured r in
    non_null character >>
    say [LText "Character:"; LVal (prop character "name")] >>
    say [LText "Height:"; LVal (prop character "height")] >>
    say [LText "Mass:"; LVal (prop character "mass")] >>
    say [LText "Birthday:"; LVal (prop character "birth_year")] >>
    when_nonempty (prop character "films")
      (say [LText "Appears in";
            LVal (optional_length (prop character "films")); LText "films"])).

(** *** [displayStarships] (lines 79-98) *)

(** [starships.results[i]] *)
Definition index (v : json) (i : Z) : option json :=
  match v with
  | JArr items => if i <? 0 then None else nth_error items (Z.to_nat i)
  | JStr s =>
      if i <? 0 then None
      else match String.get (Z.to_nat i) s with
           | Some c => Some (JStr (String c ""))
           | None => None
           end
  | JObj ps => assoc (pretty i) ps
  | _ => None
  end.

(** [v === 'unknown'] *)
Definition is_unknown (v : option json) : bool :=
  match v with
  | Some (JStr s) => String.eqb s "unknown"
  | _ => false
  end.

Definition show_starship (ship : option json) (i : Z) : proc unit :=
  say [LText (nl +:+ "Starship " +:+ pretty (i + 1) +:+ ":")] >>
  let! ship := defined ship in
  say [LText "Name:"; LVal (prop ship "name")] >>
  say [LText "Model:"; LVal (prop ship "model")] >>
  say [LText "Manufacturer:"; LVal (prop ship "manufacturer")] >>
  (let! cost :=
     if is_unknown (prop ship "cost_in_credits") then Ret "unknown"
     else template [ToString_opt (prop ship "cost_in_credits");
                    Some " credits"] in
   say [LText "Cost:"; LText cost]) >>
  say [LText "Speed:"; LVal (prop ship "max_atmosphering_speed")] >>
  say [LText "Hyperdrive Rating:"; LVal (prop ship "hyperdrive_rating")] >>
  when_nonempty (prop ship "pilots")
    (say [LText "Pilots:"; LVal (optional_length (prop ship "pilots"))]).

(** The [for] loop of line 85, by the number of rounds [i] is still
    away from [STARSHIPS_LIMIT].  The condition is evaluated once more
    when no round is left, and is false then. *)
Fixpoint starship_loop (left : nat) (i : Z) (starships : json) : proc unit :=
  let! results := defined (prop starships "results") in
  match lt_value i (prop results "length") with
  | None => Throw TypeError
  | Some below =>
      match left with
      | O => Ret tt
      | S left' =>
          if below
          then show_starship (index results i) i >>
               starship_loop left' (i + 1) starships
          else Ret tt
      end
  end.

Definition displayStarships : proc unit :=
  let! r := fetchResource "starships/?page=1" in
  let! starships := measured r in
  non_null starships >>
  say [LText (nl +:+ "Total Starships:"); LVal (prop starships "count")] >>
  starship_loop STARSHIPS_LIMIT 0 starships.

(** *** [displayLargePlanets] (lines 100-116) *)

(** The condition of lines 108-109 on the two parsed numbers. *)
Definition is_large (population diameter : option number) : bool :=
  match population, diameter with
  | Some p, Some d => above LARGE_POPULATION p && above LARGE_DIAMETER d
  | _, _ => false
  end.

(** [parseInt(v)]: the argument is converted with ToString first. *)
Definition parseInt_of (v : option json) : proc (option number) :=
  match ToString_opt v with
  | Some s => Ret (parseInt s)
  | None => Throw TypeError
  end.

(** The text of line 110. *)
Definition planet_line (planet : json) : proc string :=
  template [ToString_opt (prop planet "name"); Some " - Pop: ";
            ToString_opt (prop planet "population"); Some " - Diameter: ";
            ToString_opt (prop planet "diameter"); Some " - Climate: ";
            ToString_opt (prop planet "climate")].

(** The callback given to [planets.results.forEach]. *)
Definition show_planet (planet : json) (_ : Z) : proc unit :=
  non_null planet >>
  let! population := parseInt_of (prop planet "population") in
  let! diameter := parseInt_of (prop planet "diameter") in
  if is_large population diameter then
    (let! line := planet_line planet in say [LText line]) >>
    when_nonempty (prop planet "films")
      (let! line := template [Some "  Appears in ";
                              ToString_opt (optional_length (prop planet "films"));
                              Some " films"] in
       say [LText line])
  else Ret tt.

Definition displayLargePlanets : proc unit :=
  let! r := fetchResource "planets/?page=1" in
  let! planets := measured r in
  say [LText (nl +:+ "Large populated planets:")] >>
  non_null planets >>
  match prop planets "results" with
  | Some (JArr items) => forEach show_planet items 0
  | _ => Throw TypeError
  end.

(** *** [displayFilms] (lines 118-131) *)

(** The time value of [new Date(v)]; the outer [None] is a TypeError
    raised while converting [v], the inner one is an invalid date. *)
Definition time_value (v : option json) : option (option Z) :=
  match v with
  | None => Some None
  | Some JNull => Some (Some 0)
  | Some (JBool b) => Some (Some (if b then 1 else 0))
  | Some (JNum n) =>
      Some (if Z.abs n <=? 8640000000000000 then Some n else None)
  | Some (JStr s) => Some (Date_parse s)
  | Some x =>
      match ToString x with
      | Some s => Some (Date_parse s)
      | None => None
      end
  end.

(** [new Date(film.release_date)] as the comparator computes it. *)
Definition release_time (film : json) : option (option Z) :=
  match film with
  | JNull => None
  | _ => time_value (prop film "release_date")
  end.

(** The comparator [(a, b) => new Date(..) - new Date(..)] returns a
    positive number: both dates are valid and the first is later. *)
Definition later (a b : option Z) : bool :=
  match a, b with
  | Some x, Some y => y <? x
  | _, _ => false
  end.

Fixpoint insert_film (x : option Z * json) (l : list (option Z * json))
  : list (option Z * json) :=
  match l with
  | [] => [x]
  | y :: l' => if later (fst x) (fst y) then y :: insert_film x l'
               else x :: y :: l'
  end.

(** The comparator has a valid date for the film. *)
Definition has_date (x : option Z * json) : bool :=
  match fst x with
  | Some _ => true
  | None => false
  end.

(** The comparator returns a number other than 0 for some two of the
    films. *)
Definition some_differ (keyed : list (option Z * json)) : bool :=
  existsb (fun x => existsb (fun y => later (fst x) (fst y)) keyed) keyed.

(** [Array.prototype.sort] with that comparator.  With fewer than two
    elements the comparator is not called; otherwise it reads every
    element, and a TypeError it raises ends the sort.  Where every date
    is valid the comparator orders the films by time, and the sort,
    being stable, has one possible result: the films by ascending time,
    films of equal time in the order they had.  For a film without a
    valid date the comparator returns [NaN], which the sort reads as 0:
    if it then tells no two films apart, the stable sort moves nothing;
    if it does, it is not an ordering, and the result is the runtime's
    choice. *)
Definition sort_films (items : list json) : option (list json) :=
  match items with
  | [] | [_] => Some items
  | _ =>
      keyed ← mapM (fun film => t ← release_time film; Some (t, film)) items;
      if forallb has_date keyed
      then Some (snd <$> foldr insert_film [] keyed)
      else if some_differ keyed then Some (sort_undated keyed)
      else Some items
  end.

Fixpoint assoc_set (k : string) (v : json) (ps : list (string * json))
  : list (string * json) :=
  match ps with
  | [] => []
  | (k', v') :: ps' =>
      if String.eqb k k' then (k', v) :: ps' else (k', v') :: assoc_set k v ps'
  end.

(** The effect of sorting [films.results] in place: every reference to
    the object [oid] now sees the sorted array, the cache included. *)
Definition sorted_in_place (oid : nat) (sorted : list json) (st : state) : state :=
  set_cache
    ((fun entry : nat * json =>
        match entry with
        | (oid', JObj ps) =>
            if Nat.eqb oid' oid
            then (oid', JObj (assoc_set "results" (JArr sorted) ps))
            else entry
        | _ => entry
        end) <$> cache st)
    st.

Definition identity (v : jsval) : option nat :=
  match v with
  | JV oid _ => Some oid
  | Builtin _ => None
  end.

(** The callback given to [sortedFilms.forEach]. *)
Definition show_film (film : json) (i : Z) : proc unit :=
  non_null film >>
  (let! line := template [Some (pretty (i + 1)); Some ". ";
                          ToString_opt (prop film "title"); Some " (";
                          ToString_opt (prop film "release_date"); Some ")"] in
   say [LText line]) >>
  (let! line := template [Some "   Director: ";
                          ToString_opt (prop film "director")] in
   say [LText line]) >>
  (let! line := template [Some "   Producer: ";
                          ToString_opt (prop film "producer")] in
   say [LText line]) >>
  (let! characters := defined (prop film "characters") in
   let! line := template [Some "   Characters: ";
                          ToString_opt (prop characters "length")] in
   say [LText line]) >>
  (let! planets := defined (prop film "planets") in
   let! line := template [Some "   Planets: ";
                          ToString_opt (prop planets "length")] in
   say [LText line]).

(** Where the comparator raises, the array is taken to be left as it
    was. *)
Definition displayFilms : proc unit :=
  let! r := fetchResource "films/" in
  let! films := measured r in
  non_null films >>
  match prop films "results" with
  | Some (JArr items) =>
      match sort_films items with
      | Some sortedFilms =>
          match identity r with
          | Some oid => modify (sorted_in_place oid sortedFilms)
          | None => Ret tt
          end >>
          say [LText (nl +:+ "Star Wars Films in chronological order:")] >>
          forEach show_film sortedFilms 0
      | None => Throw TypeError
      end
  | _ => Throw TypeError
  end.

(** *** [displayVehicle] (lines 133-148) *)

Definition displayVehicle : proc unit :=
  Get (fun st =>
    if lastCharacterId st <=? MAX_VEHICLE_ID then
      let! r := fetchResource ("vehicles/" +:+ pretty (lastCharacterId st)) in
      let! vehicle := measured r in
      say [LText (nl +:+ "Featured Vehicle:")] >>
      non_null vehicle >>
      say [LText "Name:"; LVal (prop vehicle "name")] >>
      say [LText "Model:"; LVal (prop vehicle "model")] >>
      say [LText "Manufacturer:"; LVal (prop vehicle "manufacturer")] >>
      say [LText "Cost:"; LVal (prop vehicle "cost_in_credits"); LText "credits"] >>
      say [LText "Length:"; LVal (prop vehicle "length")] >>
      say [LText "Crew Required:"; LVal (prop vehicle "crew")] >>
      say [LText "Passengers:"; LVal (prop vehicle "passengers")] >>
      modify incr_lastCharacterId
    else Ret tt).

(** *** [displayStats] (lines 150-158) *)

Definition displayStats : proc unit :=
  Get (fun st =>
    if debugMode st then
      say [LText (nl +:+ "Stats:")] >>
      say [LText "API Calls:"; LNum (fetchCount st)] >>
      say [LText "Cache Size:"; LNum (Z.of_nat (size (cache st)))] >>
      say [LText "Total Data Size:"; LNum (totalDataSize st); LText "bytes"] >>
      say [LText "Error Count:"; LNum (errorCount st)]
    else Ret tt).

(** *** [runDemo] (lines 160-175) *)

Definition runDemo : proc unit :=
  try_catch
    (modify (debug_log [LText "Starting data fetch..."]) >>
     modify incr_fetchCount >>
     displayCharacterData >>
     displayStarships >>
     displayLargePlanets >>
     displayFilms >>
     displayVehicle >>
     displayStats)
    (fun e => say [LText "Error:"; LMessage e] >> modify incr_errorCount).

(** *** The presentation server (lines 187-248) *)

Inductive body : Type :=
| HtmlPage (api_calls cache_entries errors : Z) (debug : bool)
           (timeout_ms : number)
| Text (s : string)
| StatsJson (api_calls cache_size data_size errors : Z) (debug : bool)
            (timeout_ms : number).

Record reply : Type := mkReply {
  status : Z;
  content_type : string;
  payload : body
}.

(** The request listener.  On [/api] it calls [runDemo] without
    awaiting it: the call runs up to its first suspension and is handed
    back as a task that is still in flight. *)
Definition server (url : string) (st : state)
  : state * reply * option (proc unit) :=
  if String.eqb url "/" || String.eqb url "/index.html" then
    (st,
     {| status := 200; content_type := "text/html";
        payload := HtmlPage (fetchCount st) (Z.of_nat (size (cache st)))
                            (errorCount st) (debugMode st) (timeout st) |},
     None)
  else if String.eqb url "/api" then
    let '(st', task) := advance runDemo st in
    (st',
     {| status := 200; content_type := "text/plain";
        payload := Text "Check server console for results" |},
     Some task)
  else if String.eqb url "/stats" then
    (st,
     {| status := 200; content_type := "application/json";
        payload := StatsJson (fetchCount st) (Z.of_nat (size (cache st)))
                             (totalDataSize st) (errorCount st)
                             (debugMode st) (timeout st) |},
     None)
  else
    (st,
     {| status := 404; content_type := "text/plain";
        payload := Text "Not Found" |},
     None).

(** *** The event loop *)

(** What can happen to the running process: an inbound HTTP request, or
    the events of an outstanding request reaching the task that awaits
    it.  Each is handled to completion before the next. *)
Inductive stimulus : Type :=
| Inbound (url : string)
| Network (task : nat) (evs : list event).

Definition react (s : stimulus) (sys : state * list (proc unit))
  : state * list (proc unit) :=
  let '(st, tasks) := sys in
  match s with
  | Inbound url =>
      let '(st', _, spawned) := server url st in
      (st', (tasks ++ match spawned with Some t => [t] | None => [] end)%list)
  | Network i evs =>
      match tasks !! i with
      | Some (Await _ k) =>
          let '(st', t') := advance (k evs) st in
          (st', <[i := t']> tasks)
      | _ => (st, tasks)
      end
  end.

Definition react_all (ss : list stimulus) (sys : state * list (proc unit))
  : state * list (proc unit) :=
  foldl (fun sys s => react s sys) sys ss.

End Runtime.

(** ** Start-up (lines 177-185) *)

Definition set_debugMode (b : bool) (st : state) : state :=
  {| cache := cache st; errorCount := errorCount st;
     fetchCount := fetchCount st;
     totalDataSize := totalDataSize st; lastCharacterId := lastCharacterId st;
     debugMode := b; timeout := timeout st;
     console := console st; requests := requests st;
     allocated := allocated st |}.

Definition set_timeout (t : number) (st : state) : state :=
  {| cache := cache st; errorCount := errorCount st;
     fetchCount := fetchCount st;
     totalDataSize := totalDataSize st; lastCharacterId := lastCharacterId st;
     debugMode := debugMode st; timeout := t;
     console := console st; requests := requests st;
     allocated := allocated st |}.

(** [args.includes(flag)] *)
Definition includes (flag : string) (args : list string) : bool :=
  existsb (String.eqb flag) args.

(** [args.indexOf(flag)]: the first position of the flag, or -1. *)
Fixpoint indexOf (flag : string) (args : list string) : Z :=
  match args with
  | [] => -1
  | a :: rest =>
      if String.eqb a flag then 0
      else let i := indexOf flag rest in
           if i <? 0 then -1 else i + 1
  end.

(** [args[i]] *)
Definition arg_at (args : list string) (i : Z) : option string :=
  if i <? 0 then None else nth_error args (Z.to_nat i).

(** The state after the command line has been read.  [args] is
    [process.argv.slice(2)]. *)
Definition startup (args : list string) : state :=
  let st := initial in
  let st := if includes "--no-debug" args then set_debugMode false st else st in
  if includes "--timeout" args then
    let index := indexOf "--timeout" args in
    if index <? Z.of_nat (length args) - 1 then
      match arg_at args (index + 1) with
      | Some value =>
          match parseInt value with
          | Some t => set_timeout t st
          | None => st
          end
      | None => st
      end
    else st
  else st.

(** ** A concrete runtime for the worked examples *)

Definition quote : string := String (ascii_of_nat 34) "".

(** The text of an object whose only property is an empty [results]
    array. *)
Definition empty_page_text : string :=
  "{" +:+ quote +:+ "results" +:+ quote +:+ ":[]}".

Definition empty_page : json := JObj [("results", JArr [])].

(** [JSON.parse] on the handful of texts the examples send; every other
    text is taken to be malformed, as the one the examples use is. *)
Definition parse_example (text : string) : option json :=
  if String.eqb text "null" then Some JNull
  else if String.eqb text "0" then Some (JNum 0)
  else if String.eqb text "{}" then Some (JObj [])
  else if String.eqb text "[]" then Some (JArr [])
  else if String.eqb text empty_page_text then Some empty_page
  else None.

(** [JSON.stringify] on values that need no care: strings without
    characters to escape, and objects whose keys are distinct, need no
    escaping and are not array indices. *)
Fixpoint stringify_example (v : json) : string :=
  match v with
  | JNull => "null"
  | JBool true => "true"
  | JBool false => "false"
  | JNum n => Number_toString (to_number n)
  | JStr s => quote +:+ s +:+ quote
  | JArr items =>
      "[" +:+
      (fix join (l : list json) : string :=
         match l with
         | [] => ""
         | [x] => stringify_example x
         | x :: l' => stringify_example x +:+ "," +:+ join l'
         end) items +:+ "]"
  | JObj props =>
      "{" +:+
      (fix join (l : list (string * json)) : string :=
         match l with
         | [] => ""
         | [(k, x)] => quote +:+ k +:+ quote +:+ ":" +:+ stringify_example x
         | (k, x) :: l' =>
             quote +:+ k +:+ quote +:+ ":" +:+ stringify_example x +:+ "," +:+
             join l'
         end) props +:+ "}"
  end.

(** No example compares a string, an array or an object with a number. *)
Definition lt_example (_ : Z) (_ : json) : option bool := Some false.

(** [Date.parse] on the date-only ISO form [YYYY-MM-DD]; the examples
    use no other. *)
Definition two_digits (a b : ascii) : option Z :=
  match digit_value 10 a, digit_value 10 b with
  | Some x, Some y => Some (10 * x + y)
  | _, _ => None
  end.

Definition days_from_civil (y m d : Z) : Z :=
  let y := if m <=? 2 then y - 1 else y in
  let era := y / 400 in
  let yoe := y - era * 400 in
  let doy := (153 * (if 2 <? m then m - 3 else m + 9) + 2) / 5 + d - 1 in
  let doe := yoe * 365 + yoe / 4 - yoe / 100 + doy in
  era * 146097 + doe - 719468.

Definition iso_date (text : string) : option Z :=
  match text with
  | String y1 (String y2 (String y3 (String y4 (String "-"
      (String m1 (String m2 (String "-" (String d1 (String d2 ""))))))))) =>
      match two_digits y1 y2, two_digits y3 y4, two_digits m1 m2,
            two_digits d1 d2 with
      | Some yh, Some yl, Some m, Some d =>
          if (1 <=? m) && (m <=? 12) && (1 <=? d) && (d <=? 31)
          then Some (days_from_civil (100 * yh + yl) m d * 86400000)
          else None
      | _, _, _, _ => None
      end
  | _ => None
  end.

(** The comparator's result is negative: both dates are valid and the
    first is earlier.  A [NaN] result is read as 0. *)
Definition earlier (a b : option Z) : bool :=
  match a, b with
  | Some x, Some y => x <? y
  | _, _ => false
  end.

(** How far the run that starts an array goes on after its second
    element: each element is compared with the one before it. *)
Fixpoint run_length (descending : bool) (previous : option Z)
  (l : list (option Z * json)) : nat :=
  match l with
  | [] => O
  | x :: l' =>
      if Bool.eqb (earlier (fst x) previous) descending
      then S (run_length descending (fst x) l')
      else O
  end.

(** Where a binary search puts [pivot] among the elements already in
    order, between positions [left] and [right]. *)
Fixpoint search (steps : nat) (pivot : option Z) (l : list (option Z * json))
  (left right : nat) : nat :=
  match steps with
  | O => left
  | S steps' =>
      if (left <? right)%nat then
        let mid := (left + (right - left) / 2)%nat in
        match nth_error l mid with
        | Some y =>
            if earlier pivot (fst y) then search steps' pivot l left mid
            else search steps' pivot l (S mid) right
        | None => left
        end
      else left
  end.

Definition place (sorted : list (option Z * json)) (pivot : option Z * json)
  : list (option Z * json) :=
  let at_ := search (length sorted) (fst pivot) sorted O (length sorted) in
  (firstn at_ sorted ++ pivot :: skipn at_ sorted)%list.

(** What the sort of V8 does to an array of fewer than 64 elements,
    whatever the comparator: the run the array starts with is found
    (and reversed if it descends), then each remaining element is put in
    place by binary search.  The examples sort no longer array. *)
Definition sort_example (keyed : list (option Z * json)) : list json :=
  match keyed with
  | x0 :: x1 :: rest =>
      let descending := earlier (fst x1) (fst x0) in
      let n := S (S (run_length descending (fst x1) rest)) in
      let run := firstn n keyed in
      snd <$> foldl place (if descending then rev run else run) (skipn n keyed)
  | _ => snd <$> keyed
  end.

Local Open Scope list_scope.
#[local] Arguments pretty : simpl never.
#[local] Arguments Number_toString : simpl never.
#[local] Arguments to_number : simpl never.

(** ** Vocabulary of the statements *)

(** The events of a response that arrives whole: the status line, the
    body in chunks, the end of the body. *)
Definition complete_response (statusCode : Z) (chunks : list string)
  : list event :=
  Response statusCode :: (Data <$> chunks) ++ [End].

(** The body the ['data'] listener has accumulated from the chunks. *)
Definition received (chunks : list string) : string :=
  foldl String.append "" chunks.

(** Events that leave a request in flight: a status below 400, and
    chunks of the body. *)
Definition quiet (ev : event) : bool :=
  match ev with
  | Response statusCode => statusCode <? 400
  | Data _ => true
  | _ => false
  end.


(** No counter is smaller after than before. *)
Definition counters_le (st st' : state) : Prop :=
  errorCount st <= errorCount st' /\
  fetchCount st <= fetchCount st' /\
  totalDataSize st <= totalDataSize st' /\
  lastCharacterId st <= lastCharacterId st'.

(** Every step of a computation, wherever it is resumed, relates the
    state before it to the state after it by [R]. *)
Fixpoint all_acts {A : Type} (R : state -> state -> Prop) (p : proc A) : Prop :=
  match p with
  | Act f k => (forall st, R st (fst (f st))) /\ (forall b, all_acts R (k b))
  | Await _ k => forall evs, all_acts R (k evs)
  | _ => True
  end.

(** What the caller of [fetchResource] sees of a request. *)
Definition promise_outcome (rq : request) : outcome jsval :=
  match settled rq with
  | Some (inl (oid, j)) => Returned (JV oid j)
  | Some (inr e) => Thrown e
  | None => Blocked
  end.

(** The parts of the state a fetch leaves alone. *)
Definition fetch_frame (st st' : state) : Prop :=
  fetchCount st' = fetchCount st /\
  totalDataSize st' = totalDataSize st /\
  lastCharacterId st' = lastCharacterId st.

(** The parts every display routine but the last leaves alone. *)
Definition display_frame (st st' : state) : Prop :=
  fetchCount st' = fetchCount st /\
  lastCharacterId st' = lastCharacterId st.

Definition cursor_frame (st st' : state) : Prop :=
  lastCharacterId st' = lastCharacterId st.

Definition attempts_frame (st st' : state) : Prop :=
  fetchCount st' = fetchCount st.

Definition counters_frame (st st' : state) : Prop :=
  errorCount st' = errorCount st /\
  fetchCount st' = fetchCount st /\
  totalDataSize st' = totalDataSize st /\
  lastCharacterId st' = lastCharacterId st.

(** The bounds the guard of line 134 is meant to keep. *)
Definition cursor_in_range (st : state) : Prop :=
  1 <= lastCharacterId st <= MAX_VEHICLE_ID + 1.

(** A call that, run alone, keeps a property of the state. *)
Definition preserves {A : Type} (I : state -> Prop) (p : proc A) : Prop :=
  forall st net, I st -> I (fst (fst (exec p st net))).

(** *** The planet display *)

(** The value parses, with [parseInt], to a number strictly above the
    bound. *)
Definition parses_above (bound : Z) (v : option json) : bool :=
  match ToString_opt v with
  | Some s =>
      match parseInt s with
      | Some n => above bound n
      | None => false
      end
  | None => false
  end.

(** The planets the display is to include. *)
Definition large_planet (planet : json) : bool :=
  parses_above LARGE_POPULATION (prop planet "population") &&
  parses_above LARGE_DIAMETER (prop planet "diameter").

(** The text ToString gives, where it gives one. *)
Definition text (v : option json) : string := default "" (ToString_opt v).

Definition convertible (v : option json) : bool :=
  match ToString_opt v with
  | Some _ => true
  | None => false
  end.

(** Writing lines to the console, in order. *)
Definition logged (lines : list (list logarg)) (st : state) : state :=
  foldl (fun st line => log line st) st lines.

Section Planets.

Variable js_lt : Z -> json -> option bool.



(** None of the conversions line 106 to 113 apply to the planet raises
    an error: it is not [null], its population and diameter have a
    string form, and, if it passes the filter, so have the fields that
    are printed, and its films can be counted. *)
Definition displayable (planet : json) : bool :=
  match planet with
  | JNull => false
  | _ =>
      convertible (prop planet "population") &&
      convertible (prop planet "diameter") &&
      (if large_planet planet then
         convertible (prop planet "name") &&
         convertible (prop planet "climate") &&
         match lt_value js_lt 0 (optional_length (prop planet "films")) with
         | Some _ => convertible (optional_length (prop planet "films"))
         | None => false
         end
       else true)
  end.

End Planets.

(** A planet as the remote service delivers it: an object whose
    population and diameter are strings, whose name and climate are
    strings where present, and whose films, where present, are an
    array. *)
Definition is_string_or_absent (v : option json) : bool :=
  match v with
  | None | Some (JStr _) => true
  | _ => false
  end.

Definition planet_record (planet : json) : bool :=
  match planet with
  | JObj _ =>
      match prop planet "population", prop planet "diameter" with
      | Some (JStr _), Some (JStr _) =>
          is_string_or_absent (prop planet "name") &&
          is_string_or_absent (prop planet "climate") &&
          match prop planet "films" with
          | None | Some (JArr _) => true
          | _ => false
          end
      | _, _ => false
      end
  | _ => false
  end.

(** *** The film display *)

Definition is_null (v : json) : bool :=
  match v with
  | JNull => true
  | _ => false
  end.

(** [v.length] can be read and printed. *)
Definition countable (v : option json) : bool :=
  match v with
  | None | Some JNull => false
  | Some c => convertible (prop c "length")
  end.




Section Films.

Variable Date_parse : string -> option Z.

(** The release date of a film, in milliseconds, where it has a valid
    one. *)
Definition release_of (film : json) : Z :=
  match release_time Date_parse film with
  | Some (Some t) => t
  | _ => 0
  end.

Definition dated (film : json) : bool :=
  match release_time Date_parse film with
  | Some (Some _) => true
  | _ => false
  end.

(** A film with a valid release date, on which none of the conversions
    of lines 125-129 raises an error. *)
Definition film_ok (film : json) : bool :=
  negb (is_null film) && dated film &&
  convertible (prop film "title") &&
  convertible (prop film "release_date") &&
  convertible (prop film "director") &&
  convertible (prop film "producer") &&
  countable (prop film "characters") &&
  countable (prop film "planets").

Definition keyed (items : list json) : list (option Z * json) :=
  map (fun film => (Some (release_of film), film)) items.

Definition earlier_or_same (a b : json) : Prop := release_of a <= release_of b.

End Films.

(** Order on the pairs the sort works on, where both dates are valid. *)
Definition key_le (a b : option Z * json) : Prop :=
  match fst a, fst b with
  | Some x, Some y => x <= y
  | _, _ => False
  end.

Definition has_key (a : option Z * json) : Prop := exists t, fst a = Some t.

(** *** The starship display *)

Section Starships.

Variable js_lt : Z -> json -> option bool.

(** The ship has a non-empty list of pilots, as line 94 sees it. *)
Definition has_pilots (ship : json) : bool :=
  match lt_value js_lt 0 (optional_length (prop ship "pilots")) with
  | Some b => b
  | None => false
  end.

(** None of the conversions of lines 88-96 raises an error on the
    ship. *)
Definition ship_ok (ship : json) : bool :=
  negb (is_null ship) &&
  (is_unknown (prop ship "cost_in_credits") ||
   convertible (prop ship "cost_in_credits")) &&
  match lt_value js_lt 0 (optional_length (prop ship "pilots")) with
  | Some _ => true
  | None => false
  end.

(** The lines of the ship printed at position [i]. *)
Definition ship_lines (ship : json) (i : Z) : list (list logarg) :=
  [ [LText (nl +:+ "Starship " +:+ pretty (i + 1) +:+ ":")];
    [LText "Name:"; LVal (prop ship "name")];
    [LText "Model:"; LVal (prop ship "model")];
    [LText "Manufacturer:"; LVal (prop ship "manufacturer")];
    [LText "Cost:";
     LText (if is_unknown (prop ship "cost_in_credits") then "unknown"
            else text (prop ship "cost_in_credits") +:+ " credits" +:+ "")];
    [LText "Speed:"; LVal (prop ship "max_atmosphering_speed")];
    [LText "Hyperdrive Rating:"; LVal (prop ship "hyperdrive_rating")] ] ++
  (if has_pilots ship
   then [[LText "Pilots:"; LVal (optional_length (prop ship "pilots"))]]
   else []).

Fixpoint numbered_ship_lines (ships : list json) (i : Z)
  : list (list logarg) :=
  match ships with
  | [] => []
  | ship :: rest => ship_lines ship i ++ numbered_ship_lines rest (i + 1)
  end.

End Starships.

(** *** The character display and the vehicle display *)

Section CharacterAndVehicle.

Variable js_lt : Z -> json -> option bool.



End CharacterAndVehicle.


(** With verbose logging off, the console is as it was. *)
Definition silent (st st' : state) : Prop :=
  debugMode st = false -> debugMode st' = false /\ console st' = console st.

(** *** Whole runs and the event loop *)

(** The computation has no way to end with an exception: whatever it is
    resumed with, it returns, suspends, or stays suspended. *)
Fixpoint caught {A : Type} (p : proc A) : Prop :=
  match p with
  | Throw _ => False
  | Act _ k => forall b, caught (k b)
  | Await _ k => forall evs, caught (k evs)
  | _ => True
  end.

(** The settings read at start-up are as they were. *)
Definition settings_frame (st st' : state) : Prop :=
  debugMode st' = debugMode st /\ timeout st' = timeout st.

(** Every key of the cache is still a key. *)
Definition keys_kept (st st' : state) : Prop :=
  forall k, is_Some (cache st !! k) -> is_Some (cache st' !! k).

(** How many of the stimuli are requests for [/api]. *)
Definition api_requests (stimuli : list stimulus) : Z :=
  Z.of_nat (length (List.filter
                      (fun s => match s with
                                | Inbound url => String.eqb url "/api"
                                | Network _ _ => false
                                end) stimuli)).

(** ** Inputs of the worked examples *)

(** A response that carries the given text, whole. *)
Definition answer (text : string) : list event :=
  complete_response 200 [text].

(** Five clicks on the button.  The first three runs each finish before
    the next click.  The fourth run is still waiting for [vehicles/4]
    when the fifth click arrives; the fifth run finds everything up to
    the vehicle in the cache, reads the cursor, which is still 4, and
    asks for [vehicles/4] as well.  Then both answers arrive. *)
Definition overlapping_runs : list stimulus :=
  [ Inbound "/api";
    Network 0 (answer "{}"); Network 0 (answer empty_page_text);
    Network 0 (answer empty_page_text); Network 0 (answer empty_page_text);
    Network 0 (answer "{}");
    Inbound "/api"; Network 1 (answer "{}"); Network 1 (answer "{}");
    Inbound "/api"; Network 2 (answer "{}"); Network 2 (answer "{}");
    Inbound "/api"; Network 3 (answer "{}");
    Inbound "/api";
    Network 3 (answer "{}"); Network 4 (answer "{}") ].

(** Six runs, one after the other, each answered in full: the first
    fetches everything, the next three a character and a vehicle, the
    fifth a character only, the sixth nothing. *)
Definition six_runs : list (list (list event)) :=
  [ [answer "{}"; answer empty_page_text; answer empty_page_text;
     answer empty_page_text; answer "{}"];
    [answer "{}"; answer "{}"];
    [answer "{}"; answer "{}"];
    [answer "{}"; answer "{}"];
    [answer "{}"];
    [] ].


(** A planet whose population is a number the runtime prints in
    exponent form. *)
Definition numeric_planet : json :=
  JObj [("population", JNum (10 ^ 21)); ("diameter", JStr "12000")].


(** A page of two films, the later one first, already in the cache. *)
Definition film (title release_date : string) : json :=
  JObj [("title", JStr title); ("release_date", JStr release_date);
        ("director", JStr "George Lucas"); ("producer", JStr "Gary Kurtz");
        ("characters", JArr []); ("planets", JArr [])].

Definition two_films : json :=
  JObj [("results", JArr [film "A New Hope" "1977-05-25";
                          film "An earlier film" "1975-03-05"])].

Definition films_cached : state :=
  set_cache (<["films/" := (0%nat, two_films)]> ∅) initial.



(** A page of four starships, already in the cache. *)
Definition ship (name : string) (cost : json) : json :=
  JObj [("name", JStr name); ("cost_in_credits", cost); ("pilots", JArr [])].

Definition four_ships : json :=
  JObj [("count", JNum 36);
        ("results",
         JArr [ship "CR90 corvette" (JStr "3500000");
               ship "Star Destroyer" (JStr "unknown");
               ship "Sentinel-class landing craft" (JNum (10 ^ 21));
               ship "Death Star" JNull])].

Definition starships_cached : state :=
  set_cache (<["starships/?page=1" := (0%nat, four_ships)]> ∅) initial.


(** ** General facts about computations *)

Lemma exec_bind {A B : Type} (p : proc A) (f : A -> proc B) st net :
  exec (bind p f) st net =
  match exec p st net with
  | (st1, Returned a, net1) => exec (f a) st1 net1
  | (st1, Thrown e, net1) => (st1, Thrown e, net1)
  | (st1, Blocked, net1) => (st1, Blocked, net1)
  end.
Proof.
  revert st net.
  induction p as [a|e|C g k IH|ep k IH|]; intros st net; simpl; try reflexivity.
  - destruct (g st) as [st' b]. apply IH.
  - destruct net as [|evs net']; [reflexivity|apply IH].
Qed.

Lemma exec_try_catch {A : Type} (p : proc A) (h : error -> proc A) st net :
  exec (try_catch p h) st net =
  match exec p st net with
  | (st1, Thrown e, net1) => exec (h e) st1 net1
  | other => other
  end.
Proof.
  revert st net.
  induction p as [a|e|C g k IH|ep k IH|]; intros st net; simpl; try reflexivity.
  - destruct (g st) as [st' b]. apply IH.
  - destruct net as [|evs net']; [reflexivity|apply IH].
Qed.

Lemma all_acts_bind {A B : Type} R (p : proc A) (f : A -> proc B) :
  all_acts R p -> (forall a, all_acts R (f a)) -> all_acts R (bind p f).
Proof.
  intros Hp Hf.
  induction p as [a|e|C g k IH|ep k IH|]; simpl in *; auto.
  destruct Hp as [Hg Hk]. split; auto.
Qed.

Lemma all_acts_try_catch {A : Type} R (p : proc A) (h : error -> proc A) :
  all_acts R p -> (forall e, all_acts R (h e)) -> all_acts R (try_catch p h).
Proof.
  intros Hp Hh.
  induction p as [a|e|C g k IH|ep k IH|]; simpl in *; auto.
  destruct Hp as [Hg Hk]. split; auto.
Qed.

Lemma all_acts_exec {A : Type} (R : state -> state -> Prop) (p : proc A) :
  (forall st, R st st) ->
  (forall a b c, R a b -> R b c -> R a c) ->
  all_acts R p ->
  forall st net, R st (fst (fst (exec p st net))).
Proof.
  intros Hrefl Htrans.
  induction p as [a|e|C g k IH|ep k IH|]; simpl; intros Hp st net; auto.
  - destruct Hp as [Hg Hk]. specialize (Hg st).
    destruct (g st) as [st' b]. simpl in Hg.
    eapply Htrans; [exact Hg|]. apply IH, Hk.
  - destruct net as [|evs net']; simpl; auto.
Qed.

Lemma all_acts_advance {A : Type} (R : state -> state -> Prop) (p : proc A) :
  (forall st, R st st) ->
  (forall a b c, R a b -> R b c -> R a c) ->
  all_acts R p ->
  forall st, R st (fst (advance p st)) /\ all_acts R (snd (advance p st)).
Proof.
  intros Hrefl Htrans.
  induction p as [a|e|C g k IH|ep k IH|]; simpl; intros Hp st; auto.
  destruct Hp as [Hg Hk]. specialize (Hg st).
  destruct (g st) as [st' b]. simpl in Hg.
  destruct (IH b (Hk b) st') as [H1 H2].
  split; [eapply Htrans; eauto|exact H2].
Qed.

(** ** The Fetch Client *)

Section FetchClient.

Variable JSON_parse : string -> option json.

Local Abbreviation fetch := (fetchResource JSON_parse).
Local Abbreviation handle := (deliver_all JSON_parse).

Lemma exec_fetch_hit endpoint st net v :
  cache_hit (cache st) endpoint = Some v ->
  exec (fetch endpoint) st net =
  (debug_log [LText "Using cached data for"; LText endpoint] st, Returned v, net).
Proof.
  intros Hhit. unfold fetchResource, Get. simpl. rewrite Hhit. reflexivity.
Qed.

Lemma exec_fetch_miss endpoint st evs net :
  cache_hit (cache st) endpoint = None ->
  exec (fetch endpoint) st (evs :: net) =
  (fst (handle endpoint evs (record_request endpoint st) new_request),
   promise_outcome (snd (handle endpoint evs (record_request endpoint st) new_request)),
   net).
Proof.
  intros Hmiss. unfold fetchResource, Get. simpl. rewrite Hmiss. simpl.
  destruct (deliver_all _ _ _ _ _) as [st' rq]. simpl.
  unfold await_promise, promise_outcome.
  destruct (settled rq) as [[[oid j]|e]|]; reflexivity.
Qed.

Lemma exec_fetch_miss_offline endpoint st :
  cache_hit (cache st) endpoint = None ->
  exec (fetch endpoint) st [] = (record_request endpoint st, Blocked, []).
Proof.
  intros Hmiss. unfold fetchResource, Get. simpl. rewrite Hmiss. reflexivity.
Qed.

Lemma handle_app endpoint evs1 evs2 st rq :
  handle endpoint (evs1 ++ evs2) st rq =
  handle endpoint evs2 (fst (handle endpoint evs1 st rq))
                       (snd (handle endpoint evs1 st rq)).
Proof.
  revert st rq. induction evs1 as [|ev evs1 IH]; intros st rq; simpl.
  - reflexivity.
  - destruct (deliver _ _ _ _ _) as [st' rq']. apply IH.
Qed.

(** Quiet events change nothing the script can observe. *)
Lemma handle_quiet endpoint pre st rq :
  forallb quiet pre = true ->
  fst (handle endpoint pre st rq) = st /\
  settled (snd (handle endpoint pre st rq)) = settled rq /\
  aborted (snd (handle endpoint pre st rq)) = aborted rq.
Proof.
  revert rq. induction pre as [|ev pre IH]; intros rq Hq; simpl in *.
  - auto.
  - apply andb_true_iff in Hq as [Hev Hpre].
    destruct ev as [code|chunk| | |]; simpl in Hev; try discriminate.
    + simpl. destruct (responded rq).
      * apply IH, Hpre.
      * unfold on_response. simpl.
        replace (400 <=? code) with false by lia.
        destruct (IH (mkRequest true true (responseData rq) (aborted rq)
                                (settled rq)) Hpre) as (H1 & H2 & H3).
        auto.
    + simpl. destruct (listening rq).
      * destruct (IH (on_data chunk rq) Hpre) as (H1 & H2 & H3). auto.
      * apply IH, Hpre.
Qed.

(** The chunks of a body are appended in order. *)
Lemma handle_chunks endpoint chunks st rq :
  listening rq = true ->
  handle endpoint (Data <$> chunks) st rq =
  (st, {| responded := responded rq; listening := true;
          responseData := foldl String.append (responseData rq) chunks;
          aborted := aborted rq; settled := settled rq |}).
Proof.
  revert rq. induction chunks as [|c chunks IH]; intros rq Hl; simpl.
  - destruct rq; simpl in *; subst; reflexivity.
  - rewrite Hl. rewrite IH by exact Hl. reflexivity.
Qed.


Lemma cache_debug_log line st : cache (debug_log line st) = cache st.
Proof. unfold debug_log. destruct (debugMode st); reflexivity. Qed.

(** A request writes to no entry of the cache but its own. *)
Lemma handle_other_entries endpoint evs st rq k :
  k <> endpoint ->
  cache (fst (handle endpoint evs st rq)) !! k = cache st !! k.
Proof.
  intros Hk. revert st rq.
  induction evs as [|ev evs IH]; intros st rq; simpl; [reflexivity|].
  destruct (deliver JSON_parse endpoint ev st rq) as [st' rq'] eqn:Hev.
  rewrite IH. clear IH.
  destruct ev as [code|chunk| |msg|]; simpl in Hev.
  - destruct (responded rq); [congruence|].
    unfold on_response in Hev. destruct (400 <=? code); inversion Hev; reflexivity.
  - destruct (listening rq); inversion Hev; reflexivity.
  - destruct (listening rq); [|inversion Hev; reflexivity].
    unfold on_end in Hev.
    destruct (JSON_parse (responseData rq)); inversion Hev; subst;
      [|reflexivity].
    rewrite !cache_debug_log. simpl. apply lookup_insert_ne. congruence.
  - inversion Hev. reflexivity.
  - destruct (aborted rq); inversion Hev; reflexivity.
Qed.

Lemma fetch_other_entries endpoint st net k :
  k <> endpoint ->
  cache (fst (run (fetch endpoint) st net)) !! k = cache st !! k.
Proof.
  intros Hk. unfold run.
  destruct (cache_hit (cache st) endpoint) as [v|] eqn:Hhit.
  - rewrite (exec_fetch_hit _ _ _ _ Hhit). simpl.
    unfold debug_log. destruct (debugMode st); reflexivity.
  - destruct net as [|evs net].
    + rewrite exec_fetch_miss_offline by exact Hhit. reflexivity.
    + rewrite exec_fetch_miss by exact Hhit. simpl.
      rewrite handle_other_entries by exact Hk. reflexivity.
Qed.

(** The names found on [Object.prototype] never become keys of the
    cache: a fetch of such a name is answered by the test of line 21
    with the inherited member, and never reaches line 39. *)
Lemma fetch_prototype_names endpoint st net :
  (forall k, inherited k = true -> cache st !! k = None) ->
  forall k, inherited k = true ->
            cache (fst (run (fetch endpoint) st net)) !! k = None.
Proof.
  intros Hfree k Hk.
  destruct (inherited endpoint) eqn:Hep.
  - unfold run. rewrite (exec_fetch_hit _ _ _ (Builtin endpoint)).
    + simpl. unfold debug_log. destruct (debugMode st); simpl; auto.
    + unfold cache_hit, cache_get. rewrite (Hfree _ Hep), Hep. reflexivity.
  - rewrite fetch_other_entries; [auto|]. intros ->. congruence.
Qed.

(** A response that arrives whole, with a status below 400 and a body
    that parses, is stored under the endpoint and handed to the caller;
    no counter moves. *)
Lemma exec_fetch_stored endpoint st statusCode chunks j net :
  cache_hit (cache st) endpoint = None ->
  statusCode < 400 ->
  JSON_parse (received chunks) = Some j ->
  exists st',
    exec (fetch endpoint) st (complete_response statusCode chunks :: net) =
      (st', Returned (JV (allocated st) j), net) /\
    cache st' = <[endpoint := (allocated st, j)]> (cache st) /\
    requests st' = (requests st ++ [endpoint])%list /\
    errorCount st' = errorCount st /\
    fetchCount st' = fetchCount st /\
    totalDataSize st' = totalDataSize st /\
    lastCharacterId st' = lastCharacterId st /\
    debugMode st' = debugMode st.
Proof.
  intros Hmiss Hcode Hparse.
  rewrite exec_fetch_miss by exact Hmiss.
  unfold complete_response.
  change (Response statusCode :: (Data <$> chunks) ++ [End])
    with ([Response statusCode] ++ ((Data <$> chunks) ++ [End]))%list.
  rewrite handle_app. simpl. unfold on_response. simpl.
  replace (400 <=? statusCode) with false by lia. simpl.
  rewrite handle_app. rewrite handle_chunks by reflexivity. simpl.
  unfold on_end. simpl. fold (received chunks). rewrite Hparse. simpl.
  eexists. split; [reflexivity|].
  unfold debug_log. simpl.
  destruct (debugMode st) eqn:Hdebug; simpl; rewrite ?Hdebug; simpl;
    repeat split; auto.
Qed.

(** When an endpoint that could not be served from the cache is
    fetched, and the response arrives whole with a status below 400 and
    a body that parses to a truthy value, then fetching it a second time
    returns the very same object, and the two calls together issue
    exactly one request, use none of the later network events and leave
    the error and attempt counters where they were. *)
Lemma fetch_twice_one_request endpoint st statusCode chunks j net :
  cache_hit (cache st) endpoint = None ->
  statusCode < 400 ->
  JSON_parse (received chunks) = Some j ->
  truthy j = true ->
  exists st2 v,
    exec (let! first := fetch endpoint in
          let! second := fetch endpoint in
          Ret (first, second))
         st (complete_response statusCode chunks :: net) =
      (st2, Returned (v, v), net) /\
    v = JV (allocated st) j /\
    requests st2 = (requests st ++ [endpoint])%list /\
    errorCount st2 = errorCount st /\
    fetchCount st2 = fetchCount st.
Proof.
  intros Hmiss Hcode Hparse Htruthy.
  destruct (exec_fetch_stored endpoint st statusCode chunks j net
              Hmiss Hcode Hparse)
    as (st1 & Hexec & Hcache & Hreq & Herr & Hfetch & _).
  assert (Hhit : cache_hit (cache st1) endpoint = Some (JV (allocated st) j)).
  { unfold cache_hit, cache_get. rewrite Hcache, lookup_insert_eq.
    simpl. rewrite Htruthy. reflexivity. }
  exists (debug_log [LText "Using cached data for"; LText endpoint] st1),
         (JV (allocated st) j).
  rewrite exec_bind, Hexec, exec_bind, (exec_fetch_hit _ _ _ _ Hhit). simpl.
  unfold debug_log. destruct (debugMode st1); simpl; auto.
Qed.

(** When the timeout fires on a request that is still in flight (no
    status of 400 or more, no end of the body, no transport error so
    far), the request is aborted and the call fails with the timeout
    error for that endpoint.  Up to that moment the error counter has
    gone up by one; what the runtime reports after the abort comes on
    top of it. *)
Lemma fetch_timeout endpoint st pre net :
  cache_hit (cache st) endpoint = None ->
  forallb quiet pre = true ->
  run (fetch endpoint) st ((pre ++ [Timeout]) :: net) =
    (incr_errorCount (record_request endpoint st),
     Thrown (TimeoutError endpoint)) /\
  aborted (snd (handle endpoint (pre ++ [Timeout])
                       (record_request endpoint st) new_request)) = true /\
  errorCount (fst (run (fetch endpoint) st ((pre ++ [Timeout]) :: net))) =
    errorCount st + 1.
Proof.
  intros Hmiss Hquiet.
  unfold run. rewrite exec_fetch_miss by exact Hmiss. simpl.
  rewrite handle_app.
  destruct (handle_quiet endpoint pre (record_request endpoint st)
              new_request Hquiet) as (Hst & Hset & Hab).
  destruct (handle endpoint pre _ _) as [st1 rq1]. simpl in *. subst st1.
  rewrite Hab. unfold on_timeout, promise_outcome, reject, settle. simpl.
  rewrite Hset. simpl. auto.
Qed.



End FetchClient.

(** *** The Fetch Client on concrete requests *)

Lemma fetch_twice_one_request_witness :
  cache_hit (cache initial) "people/1" = None /\
  200 < 400 /\
  parse_example (received ["{}"]) = Some (JObj []) /\
  truthy (JObj []) = true /\
  exists st2 v,
    exec (let! first := fetchResource parse_example "people/1" in
          let! second := fetchResource parse_example "people/1" in
          Ret (first, second))
         initial (complete_response 200 ["{}"] :: []) =
      (st2, Returned (v, v), []) /\
    v = JV (allocated initial) (JObj []) /\
    requests st2 = requests initial ++ ["people/1"] /\
    errorCount st2 = errorCount initial /\
    fetchCount st2 = fetchCount initial.
Proof.
  split; [reflexivity|]. split; [lia|]. split; [reflexivity|].
  split; [reflexivity|].
  apply (fetch_twice_one_request parse_example "people/1" initial 200 ["{}"]
           (JObj []) []); [reflexivity|lia|reflexivity|reflexivity].
Defined.

(** A failed fetch stores nothing, so an endpoint that answers with
    status 500 is requested again by the next call. *)
Lemma fetch_twice_two_requests :
  let st1 := fst (run (fetchResource parse_example "people/1") initial
                      [[Response 500]]) in
  let st2 := fst (run (fetchResource parse_example "people/1") st1
                      [[Response 500]]) in
  requests st2 = ["people/1"; "people/1"] /\
  snd (run (fetchResource parse_example "people/1") st1 [[Response 500]]) =
    Thrown (HttpError 500) /\
  errorCount st2 = 2.
Proof. vm_compute. repeat split; reflexivity. Qed.

Lemma fetch_timeout_witness :
  cache_hit (cache initial) "films/" = None /\
  forallb quiet [Response 200; Data "{"] = true /\
  run (fetchResource parse_example "films/") initial
      (([Response 200; Data "{"] ++ [Timeout]) :: []) =
    (incr_errorCount (record_request "films/" initial),
     Thrown (TimeoutError "films/")) /\
  aborted (snd (deliver_all parse_example "films/"
                  ([Response 200; Data "{"] ++ [Timeout])
                  (record_request "films/" initial) new_request)) = true /\
  errorCount (fst (run (fetchResource parse_example "films/") initial
                       (([Response 200; Data "{"] ++ [Timeout]) :: []))) =
    errorCount initial + 1.
Proof.
  split; [reflexivity|]. split; [reflexivity|].
  apply (fetch_timeout parse_example "films/" initial
           [Response 200; Data "{"] []); reflexivity.
Defined.

(** C2 where no response arrives in time: the timeout callback of
    lines 58-62 aborts the request, counts the failure and rejects with
    the timeout error.  Aborting a request that has had no response
    makes the runtime report ['error'] (socket hang up) on it, and the
    listener of lines 53-56 is still attached: it counts the same
    failure again.  The caller sees the timeout error, and the error
    counter has gone up by two, where the claim has exactly one. *)
Theorem fetch_timeout_counted_twice :
  let endpoint := "films/" in
  let events := [Timeout; NetError "socket hang up"] in
  let result := run (fetchResource parse_example endpoint) initial [events] in
  cache_hit (cache initial) endpoint = None /\
  aborted (snd (deliver_all parse_example endpoint events
                            (record_request endpoint initial) new_request)) =
    true /\
  snd result = Thrown (TimeoutError endpoint) /\
  requests (fst result) = [endpoint] /\
  errorCount initial = 0 /\
  errorCount (fst result) = 2.
Proof. vm_compute. repeat split; reflexivity. Qed.

(** C1 at a falsy body: the endpoint answers both requests with status
    200 and the body [null].  The first call stores [null] under the
    endpoint, but the test of line 21 reads a stored [null] as no entry,
    so the second call goes to the network too: two requests for one
    endpoint, both answers used, no error counted. *)
Theorem fetch_twice_null_body :
  let endpoint := "people/1" in
  let net := [complete_response 200 ["null"]; complete_response 200 ["null"]] in
  let first := fetchResource parse_example endpoint in
  let twice := (let! a := fetchResource parse_example endpoint in
                let! b := fetchResource parse_example endpoint in
                Ret (a, b)) in
  snd (run first initial net) = Returned (JV 0 JNull) /\
  cache (fst (run first initial net)) !! endpoint = Some (0%nat, JNull) /\
  exec twice initial net =
    (fst (fst (exec twice initial net)),
     Returned (JV 0 JNull, JV 1 JNull), []) /\
  requests (fst (fst (exec twice initial net))) = [endpoint; endpoint] /\
  errorCount (fst (fst (exec twice initial net))) = 0.
Proof. vm_compute. repeat split; reflexivity. Qed.



(** C3 at a falsy value: the body [null] is stored under the endpoint,
    but the test of line 21 does not recognise the entry, so the next
    fetch goes to the network again and line 39 overwrites the entry
    with what the second response parsed to. *)
Theorem cache_entry_overwritten :
  let endpoint := "planets/?page=1" in
  let st1 := fst (run (fetchResource parse_example endpoint) initial
                      [complete_response 200 ["null"]]) in
  let st2 := fst (run (fetchResource parse_example endpoint) st1
                      [complete_response 200 ["{}"]]) in
  cache st1 !! endpoint = Some (0%nat, JNull) /\
  cache st2 !! endpoint = Some (1%nat, JObj []) /\
  requests st2 = [endpoint; endpoint].
Proof. vm_compute. repeat split; reflexivity. Qed.

(** ** What the routines may do to the state *)

Lemma all_acts_impl {A : Type} (R R' : state -> state -> Prop) (p : proc A) :
  (forall st st', R st st' -> R' st st') -> all_acts R p -> all_acts R' p.
Proof.
  intros Himpl.
  induction p as [a|e|C g k IH|ep k IH|]; simpl; auto.
  intros [Hg Hk]. split; auto.
Qed.

Section Footprint.

Variable JSON_parse : string -> option json.
Variable JSON_stringify : json -> string.
Variable js_lt : Z -> json -> option bool.
Variable Date_parse : string -> option Z.
Variable sort_undated : list (option Z * json) -> list json.

(** A relation between the state before and after a step ... *)
Variable R : state -> state -> Prop.

(** ... that the steps of the script respect. *)
Hypothesis R_refl : forall st, R st st.
Hypothesis R_trans : forall a b c, R a b -> R b c -> R a c.
Hypothesis R_log : forall line st, R st (log line st).
Hypothesis R_request : forall endpoint st, R st (record_request endpoint st).
Hypothesis R_error : forall st, R st (incr_errorCount st).
Hypothesis R_store :
  forall endpoint j st,
    R st (set_cache (<[endpoint := (allocated st, j)]> (cache st))
                    (incr_allocated st)).
Hypothesis R_sorted :
  forall oid sorted st, R st (sorted_in_place oid sorted st).
Hypothesis R_size : forall n st, 0 <= n -> R st (add_totalDataSize n st).
Hypothesis R_attempt : forall st, R st (incr_fetchCount st).
Hypothesis R_cursor : forall st, R st (incr_lastCharacterId st).

Lemma R_debug_log line st : R st (debug_log line st).
Proof. unfold debug_log. destruct (debugMode st); auto. Qed.

Lemma deliver_respects endpoint ev st rq :
  R st (fst (deliver JSON_parse endpoint ev st rq)).
Proof.
  destruct ev as [code|chunk| |msg|]; simpl.
  - destruct (responded rq); simpl; auto.
    unfold on_response. destruct (400 <=? code); simpl; auto.
  - destruct (listening rq); simpl; auto.
  - destruct (listening rq); simpl; auto.
    unfold on_end. destruct (JSON_parse (responseData rq)); simpl; auto.
    eapply R_trans; [apply R_store|].
    eapply R_trans; apply R_debug_log.
  - auto.
  - destruct (aborted rq); simpl; auto.
Qed.

Lemma deliver_all_respects endpoint evs st rq :
  R st (fst (deliver_all JSON_parse endpoint evs st rq)).
Proof.
  revert st rq. induction evs as [|ev evs IH]; intros st rq; simpl; auto.
  pose proof (deliver_respects endpoint ev st rq) as Hev.
  destruct (deliver _ _ _ _ _) as [st' rq']. simpl in Hev.
  eapply R_trans; [exact Hev|apply IH].
Qed.

Lemma fetchResource_respects endpoint :
  all_acts R (fetchResource JSON_parse endpoint).
Proof.
  unfold fetchResource, Get. simpl. split; [auto|]. intros st.
  destruct (cache_hit (cache st) endpoint); simpl.
  - split; [intros; apply R_debug_log|auto].
  - split; [auto|]. intros _ evs. split; [|intros rq].
    + intros st'. apply deliver_all_respects.
    + unfold await_promise. destruct (settled rq) as [[[? ?]|?]|]; simpl; auto.
Qed.

Lemma say_respects line : all_acts R (say line).
Proof. simpl. auto. Qed.

Lemma non_null_respects v : all_acts R (non_null v).
Proof. destruct v; simpl; auto. Qed.

Lemma defined_respects v : all_acts R (defined v).
Proof. destruct v as [[]|]; simpl; auto. Qed.

Lemma template_respects pieces : all_acts R (template pieces).
Proof.
  induction pieces as [|[piece|] pieces IH]; simpl; auto.
  apply all_acts_bind; simpl; auto.
Qed.

Lemma when_nonempty_respects x body :
  all_acts R body -> all_acts R (when_nonempty js_lt x body).
Proof.
  intros Hbody. unfold when_nonempty.
  destruct (lt_value js_lt 0 (optional_length x)) as [[]|]; simpl; auto.
Qed.

Lemma measured_respects v : all_acts R (measured JSON_stringify v).
Proof.
  destruct v as [oid j|name]; simpl.
  - split; [intros st; apply R_size; lia|auto].
  - destruct (String.eqb name "__proto__"); simpl; auto.
    split; [intros st; apply R_size; lia|auto].
Qed.

Lemma forEach_respects f items i :
  (forall x n, all_acts R (f x n)) -> all_acts R (forEach f items i).
Proof.
  intros Hf. revert i. induction items as [|x items IH]; intros i; simpl; auto.
  apply all_acts_bind; auto.
Qed.

Lemma Get_respects {A : Type} (k : state -> proc A) :
  (forall st, all_acts R (k st)) -> all_acts R (Get k).
Proof. intros Hk. unfold Get. simpl. auto. Qed.

Lemma modify_respects f : (forall st, R st (f st)) -> all_acts R (modify f).
Proof. intros Hf. unfold modify. simpl. auto. Qed.

Create HintDb footprint.
#[local] Hint Resolve say_respects non_null_respects defined_respects
  template_respects when_nonempty_respects measured_respects
  forEach_respects fetchResource_respects : footprint.

Ltac footprint :=
  repeat first
    [ solve [eauto with footprint]
    | apply when_nonempty_respects
    | apply all_acts_bind; [|intro]
    | apply Get_respects; intro
    | apply modify_respects; intro
    | solve [simpl; auto] ].

Lemma displayCharacterData_respects :
  all_acts R (displayCharacterData JSON_parse JSON_stringify js_lt).
Proof. unfold displayCharacterData. footprint. Qed.

Lemma show_starship_respects ship i : all_acts R (show_starship js_lt ship i).
Proof.
  unfold show_starship.
  footprint; destruct (is_unknown _); [simpl; auto|footprint].
Qed.

Lemma starship_loop_respects left i starships :
  all_acts R (starship_loop js_lt left i starships).
Proof.
  revert i. induction left as [|left IH]; intros i; cbn [starship_loop].
  - footprint. destruct (lt_value _ _ _); simpl; auto.
  - footprint. destruct (lt_value _ _ _) as [[]|]; [|simpl; auto..].
    apply all_acts_bind; [apply show_starship_respects|intros _; apply IH].
Qed.

#[local] Hint Resolve starship_loop_respects : footprint.

Lemma displayStarships_respects :
  all_acts R (displayStarships JSON_parse JSON_stringify js_lt).
Proof. unfold displayStarships. footprint. Qed.

Lemma parseInt_of_respects v : all_acts R (parseInt_of v).
Proof. unfold parseInt_of. destruct (ToString_opt v); simpl; auto. Qed.

#[local] Hint Resolve parseInt_of_respects : footprint.

Lemma show_planet_respects planet i : all_acts R (show_planet js_lt planet i).
Proof.
  unfold show_planet, planet_line.
  footprint; destruct (is_large _ _); [footprint|simpl; auto].
Qed.

#[local] Hint Resolve show_planet_respects : footprint.

Lemma displayLargePlanets_respects :
  all_acts R (displayLargePlanets JSON_parse JSON_stringify js_lt).
Proof.
  unfold displayLargePlanets.
  footprint; destruct (prop _ _) as [[]|]; footprint.
Qed.

Lemma show_film_respects film i : all_acts R (show_film film i).
Proof. unfold show_film. footprint. Qed.

#[local] Hint Resolve show_film_respects : footprint.

Lemma displayFilms_respects :
  all_acts R (displayFilms JSON_parse JSON_stringify Date_parse sort_undated).
Proof.
  unfold displayFilms.
  footprint; destruct (prop _ _) as [[]|]; footprint.
  destruct (sort_films _ _ _); footprint.
  destruct (identity _); footprint.
Qed.

Lemma displayVehicle_respects :
  all_acts R (displayVehicle JSON_parse JSON_stringify).
Proof.
  unfold displayVehicle.
  footprint; destruct (_ <=? _); footprint.
Qed.

Lemma displayStats_respects : all_acts R displayStats.
Proof.
  unfold displayStats.
  footprint; destruct (debugMode _); footprint.
Qed.

#[local] Hint Resolve R_debug_log displayCharacterData_respects
  displayStarships_respects displayLargePlanets_respects
  displayFilms_respects displayVehicle_respects displayStats_respects
  : footprint.

Lemma runDemo_respects :
  all_acts R (runDemo JSON_parse JSON_stringify js_lt Date_parse sort_undated).
Proof.
  unfold runDemo. apply all_acts_try_catch; [|intros e]; footprint.
Qed.

(** The request listener, and whatever task it leaves in flight. *)
Lemma server_respects url st :
  R st (fst (fst (server JSON_parse JSON_stringify js_lt Date_parse
        sort_undated url st))) /\
  (forall t,
     snd (server JSON_parse JSON_stringify js_lt Date_parse
           sort_undated url st) = Some t ->
     all_acts R t).
Proof.
  unfold server.
  destruct (_ || _); [simpl; split; [auto|discriminate]|].
  destruct (String.eqb url "/api").
  - pose proof (all_acts_advance R _ R_refl R_trans runDemo_respects st)
      as [H1 H2].
    destruct (advance (runDemo _ _ _ _ _) st) as [st' task]. simpl in *.
    split; [auto|]. intros t [= <-]. exact H2.
  - destruct (String.eqb url "/stats"); simpl; split; auto; discriminate.
Qed.

(** One turn of the event loop. *)
Lemma react_respects s st tasks :
  Forall (all_acts R) tasks ->
  R st (fst (react JSON_parse JSON_stringify js_lt Date_parse
        sort_undated s (st, tasks))) /\
  Forall (all_acts R)
    (snd (react JSON_parse JSON_stringify js_lt Date_parse
          sort_undated s (st, tasks))).
Proof.
  intros Htasks. destruct s as [url|i evs]; cbn [react].
  - pose proof (server_respects url st) as [H1 H2].
    destruct (server _ _ _ _ _ url st) as [[st' r] spawned]. simpl in *.
    split; [auto|]. apply Forall_app. split; [auto|].
    destruct spawned; auto.
  - destruct (tasks !! i) as [t|] eqn:Hi; simpl; auto.
    destruct t as [a|e|C g k|ep k|]; simpl; auto.
    assert (Hk : all_acts R (k evs)).
    { rewrite Forall_forall in Htasks.
      apply list_elem_of_lookup_2 in Hi.
      specialize (Htasks _ Hi). simpl in Htasks. auto. }
    pose proof (all_acts_advance R _ R_refl R_trans Hk st) as [H1 H2].
    destruct (advance (k evs) st) as [st' t']. simpl in *.
    split; [auto|]. apply Forall_insert; auto.
Qed.

Lemma react_all_respects ss st tasks :
  Forall (all_acts R) tasks ->
  R st (fst (react_all JSON_parse JSON_stringify js_lt Date_parse
        sort_undated ss (st, tasks))) /\
  Forall (all_acts R)
    (snd (react_all JSON_parse JSON_stringify js_lt Date_parse
          sort_undated ss (st, tasks))).
Proof.
  unfold react_all.
  revert st tasks. induction ss as [|s ss IH]; intros st tasks Htasks;
    cbn [foldl].
  - auto.
  - pose proof (react_respects s st tasks Htasks) as [H1 H2].
    destruct (react _ _ _ _ _ s (st, tasks)) as [st' tasks']. cbn [fst snd] in *.
    destruct (IH st' tasks' H2) as [H3 H4].
    split; [exact (R_trans _ _ _ H1 H3)|exact H4].
Qed.

End Footprint.

(** ** The counters *)

Ltac frame :=
  unfold counters_le, fetch_frame, display_frame, attempts_frame,
    cursor_frame, counters_frame;
  intros; simpl in *; intuition (try lia; try congruence).

Ltac by_steps lemma :=
  apply all_acts_exec; [frame|frame|apply lemma; frame].

Section Counters.

Variable JSON_parse : string -> option json.
Variable JSON_stringify : json -> string.
Variable js_lt : Z -> json -> option bool.
Variable Date_parse : string -> option Z.
Variable sort_undated : list (option Z * json) -> list json.

Local Abbreviation fetch := (fetchResource JSON_parse).
Local Abbreviation character := (displayCharacterData JSON_parse JSON_stringify js_lt).
Local Abbreviation starships := (displayStarships JSON_parse JSON_stringify js_lt).
Local Abbreviation planets := (displayLargePlanets JSON_parse JSON_stringify js_lt).
Local Abbreviation films := (displayFilms JSON_parse JSON_stringify Date_parse
      sort_undated).
Local Abbreviation vehicle := (displayVehicle JSON_parse JSON_stringify).
Local Abbreviation demo := (runDemo JSON_parse JSON_stringify js_lt Date_parse
      sort_undated).
Local Abbreviation loop := (react_all JSON_parse JSON_stringify js_lt Date_parse
      sort_undated).

(** C9, as amended: no counter is ever smaller after an operation than
    before it, whether the operation is a fetch, a display routine, the
    stats report, a whole run, or any sequence of inbound requests and
    network events handled by the server, overlapping runs included.
    The counters are written by the Fetch Client, by the five display
    routines and by [runDemo], and by nothing else: the stats report
    changes none of them, and a request for any URL but [/api] changes
    nothing at all.  Of these, a fetch leaves the attempt counter, the
    size counter and the cursor alone; the four display routines before
    the vehicle display leave the attempt counter and the cursor alone;
    the vehicle display leaves the attempt counter alone. *)
Theorem counters_only_grow st net :
  (forall endpoint, counters_le st (fst (run (fetch endpoint) st net))) /\
  counters_le st (fst (run character st net)) /\
  counters_le st (fst (run starships st net)) /\
  counters_le st (fst (run planets st net)) /\
  counters_le st (fst (run films st net)) /\
  counters_le st (fst (run vehicle st net)) /\
  counters_le st (fst (run displayStats st net)) /\
  counters_le st (fst (run demo st net)) /\
  (forall stimuli, counters_le st (fst (loop stimuli (st, [])))) /\
  (forall endpoint, fetch_frame st (fst (run (fetch endpoint) st net))) /\
  display_frame st (fst (run character st net)) /\
  display_frame st (fst (run starships st net)) /\
  display_frame st (fst (run planets st net)) /\
  display_frame st (fst (run films st net)) /\
  attempts_frame st (fst (run vehicle st net)) /\
  counters_frame st (fst (run displayStats st net)) /\
  (forall url,
     url <> "/api" ->
     fst (fst (server JSON_parse JSON_stringify js_lt Date_parse
           sort_undated url st)) = st).
Proof.
  unfold run.
  split; [intros endpoint; by_steps fetchResource_respects|].
  split; [by_steps displayCharacterData_respects|].
  split; [by_steps displayStarships_respects|].
  split; [by_steps displayLargePlanets_respects|].
  split; [by_steps displayFilms_respects|].
  split; [by_steps displayVehicle_respects|].
  split; [by_steps displayStats_respects|].
  split; [by_steps runDemo_respects|].
  split.
  { intros stimuli.
    apply (react_all_respects JSON_parse JSON_stringify js_lt Date_parse
          sort_undated
             counters_le); try (frame; fail).
    constructor. }
  split; [intros endpoint; by_steps fetchResource_respects|].
  split; [by_steps displayCharacterData_respects|].
  split; [by_steps displayStarships_respects|].
  split; [by_steps displayLargePlanets_respects|].
  split; [by_steps displayFilms_respects|].
  split; [by_steps displayVehicle_respects|].
  split; [by_steps displayStats_respects|].
  intros url Hurl. unfold server.
  apply String.eqb_neq in Hurl. rewrite Hurl.
  destruct (_ || _); [reflexivity|].
  destruct (String.eqb url "/stats"); reflexivity.
Qed.

End Counters.

(** C9 as stated does not hold: the attempt counter is incremented by
    [runDemo] itself, before the first request has been answered and
    long before the vehicle display; and the size counter is advanced by
    [displayCharacterData], not by the fetch it makes. *)
Lemma counters_written_elsewhere :
  let demo := runDemo parse_example stringify_example lt_example iso_date
        sort_example in
  let fetch := fetchResource parse_example "people/1" in
  let character :=
    displayCharacterData parse_example stringify_example lt_example in
  fetchCount initial = 0 /\
  fetchCount (fst (advance demo initial)) = 1 /\
  match snd (advance demo initial) with
  | Await endpoint _ => endpoint = "people/1"
  | _ => False
  end /\
  totalDataSize (fst (run fetch initial [complete_response 200 ["{}"]])) = 0 /\
  totalDataSize (fst (run character initial [complete_response 200 ["{}"]])) = 2.
Proof. vm_compute. repeat split; reflexivity. Qed.

(** ** The presentation server *)

Section Server.

Variable JSON_parse : string -> option json.
Variable JSON_stringify : json -> string.
Variable js_lt : Z -> json -> option bool.
Variable Date_parse : string -> option Z.
Variable sort_undated : list (option Z * json) -> list json.

(** C8, as amended: a request whose URL is none of [/], [/index.html],
    [/api] and [/stats] is answered with status 404 and content type
    [text/plain]; it changes nothing and starts no run. *)
Theorem server_not_found url st :
  url <> "/" -> url <> "/index.html" -> url <> "/api" -> url <> "/stats" ->
  server JSON_parse JSON_stringify js_lt Date_parse sort_undated url st =
    (st,
     {| status := 404; content_type := "text/plain";
        payload := Text "Not Found" |},
     None).
Proof.
  intros H1 H2 H3 H4. unfold server.
  apply String.eqb_neq in H1, H2, H3, H4.
  rewrite H1, H2, H3, H4. reflexivity.
Qed.

End Server.

Lemma server_not_found_witness :
  "/favicon.ico" <> "/" /\
  "/favicon.ico" <> "/index.html" /\
  "/favicon.ico" <> "/api" /\
  "/favicon.ico" <> "/stats" /\
  server parse_example stringify_example lt_example iso_date sort_example
         "/favicon.ico" initial =
    (initial,
     {| status := 404; content_type := "text/plain";
        payload := Text "Not Found" |},
     None).
Proof.
  split; [discriminate|]. split; [discriminate|].
  split; [discriminate|]. split; [discriminate|].
  apply (server_not_found parse_example stringify_example lt_example iso_date
        sort_example
           "/favicon.ico" initial); discriminate.
Defined.

(** C8 as stated does not hold: [/index.html] is not one of the three
    routes, and it is answered like [/]. *)
Lemma server_index_html :
  let reply :=
    snd (fst (server parse_example stringify_example lt_example iso_date
          sort_example
                     "/index.html" initial)) in
  "/index.html" <> "/" /\ "/index.html" <> "/api" /\
  "/index.html" <> "/stats" /\
  status reply = 200 /\ content_type reply = "text/html".
Proof. repeat split; discriminate. Qed.

(** ** The cursor of the vehicle display *)

Lemma preserves_bind {A B : Type} I (p : proc A) (f : A -> proc B) :
  preserves I p -> (forall a, preserves I (f a)) -> preserves I (bind p f).
Proof.
  intros Hp Hf st net Hst. rewrite exec_bind.
  specialize (Hp st net Hst).
  destruct (exec p st net) as [[st1 [a|e|]] net1]; simpl in *; auto.
  apply Hf, Hp.
Qed.

Lemma preserves_try_catch {A : Type} I (p : proc A) (h : error -> proc A) :
  preserves I p -> (forall e, preserves I (h e)) -> preserves I (try_catch p h).
Proof.
  intros Hp Hh st net Hst. rewrite exec_try_catch.
  specialize (Hp st net Hst).
  destruct (exec p st net) as [[st1 [a|e|]] net1]; simpl in *; auto.
  apply Hh, Hp.
Qed.

(** A call none of whose steps moves the cursor keeps it in range. *)
Lemma preserves_cursor {A : Type} (p : proc A) :
  all_acts cursor_frame p -> preserves cursor_in_range p.
Proof.
  intros Hp st net Hst.
  pose proof (all_acts_exec cursor_frame p ltac:(frame) ltac:(frame) Hp st net)
    as Hid.
  unfold cursor_in_range, cursor_frame in *. rewrite Hid. exact Hst.
Qed.

Section Cursor.

Variable JSON_parse : string -> option json.
Variable JSON_stringify : json -> string.
Variable js_lt : Z -> json -> option bool.
Variable Date_parse : string -> option Z.
Variable sort_undated : list (option Z * json) -> list json.

Local Abbreviation fetch := (fetchResource JSON_parse).
Local Abbreviation vehicle := (displayVehicle JSON_parse JSON_stringify).
Local Abbreviation demo := (runDemo JSON_parse JSON_stringify js_lt Date_parse
      sort_undated).

(** A fetch issues at most the one request for its endpoint. *)
Lemma fetch_requests endpoint st net :
  requests (fst (fst (exec (fetch endpoint) st net))) = requests st \/
  requests (fst (fst (exec (fetch endpoint) st net))) =
    requests st ++ [endpoint].
Proof.
  destruct (cache_hit (cache st) endpoint) as [v|] eqn:Hhit.
  - rewrite (exec_fetch_hit _ _ _ _ _ Hhit). simpl.
    left. unfold debug_log. destruct (debugMode st); reflexivity.
  - right. destruct net as [|evs net].
    + rewrite exec_fetch_miss_offline by exact Hhit. reflexivity.
    + rewrite exec_fetch_miss by exact Hhit. simpl.
      apply (deliver_all_respects JSON_parse
               (fun st st' => requests st' = requests st)); intros; simpl;
        try reflexivity; congruence.
Qed.

(** Run alone, the vehicle display keeps the cursor between 1 and 5,
    does nothing at all once the cursor is past 4, and requests nothing
    but the vehicle the cursor points at. *)
Lemma displayVehicle_alone st net :
  cursor_in_range st ->
  cursor_in_range (fst (run vehicle st net)) /\
  (MAX_VEHICLE_ID < lastCharacterId st ->
   run vehicle st net = (st, Returned tt)) /\
  (requests (fst (run vehicle st net)) = requests st \/
   lastCharacterId st <= MAX_VEHICLE_ID /\
   requests (fst (run vehicle st net)) =
     requests st ++ ["vehicles/" +:+ pretty (lastCharacterId st)]).
Proof.
  unfold cursor_in_range, run. intros Hst.
  unfold displayVehicle, Get. cbn [exec]. unfold MAX_VEHICLE_ID in *.
  set (endpoint := "vehicles/" +:+ pretty (lastCharacterId st)).
  destruct (lastCharacterId st <=? 4) eqn:Hguard.
  - rewrite exec_bind.
    pose proof (fetch_requests endpoint st net) as Hreq.
    pose proof (all_acts_exec fetch_frame (fetch endpoint)
                  ltac:(frame) ltac:(frame)
                  ltac:(apply fetchResource_respects; frame) st net)
      as (_ & _ & Hid).
    clearbody endpoint.
    destruct (exec (fetch _) st net) as [[st1 [r|e|]] net1]; simpl in *.
    + match goal with |- context [exec ?p st1 net1] =>
        set (X := exec p st1 net1) end.
      assert (HX : (lastCharacterId (fst (fst X)) = lastCharacterId st1 \/
                    lastCharacterId (fst (fst X)) = lastCharacterId st1 + 1) /\
                   requests (fst (fst X)) = requests st1).
      { subst X.
        destruct r as [oid [| | | | |]|name]; simpl;
          try (destruct (String.eqb name "__proto__"); simpl);
          (split; [lia|reflexivity]). }
      clearbody X. destruct HX as [Hid2 Hreq2].
      split; [lia|]. split; [lia|]. rewrite Hreq2.
      destruct Hreq as [->| ->]; [left|right]; auto. split; [lia|auto].
    + split; [lia|]. split; [lia|].
      destruct Hreq as [->| ->]; [left|right]; auto. split; [lia|auto].
    + split; [lia|]. split; [lia|].
      destruct Hreq as [->| ->]; [left|right]; auto. split; [lia|auto].
  - simpl. split; [lia|]. split; auto.
Qed.

(** A whole run, alone, keeps the cursor between 1 and 5. *)
Lemma runDemo_alone : preserves cursor_in_range demo.
Proof.
  unfold runDemo. apply preserves_try_catch.
  - apply preserves_bind; [|intros _].
    { apply preserves_cursor, modify_respects. intros st.
      unfold debug_log. destruct (debugMode st); frame. }
    apply preserves_bind; [|intros _].
    { apply preserves_cursor, modify_respects. frame. }
    apply preserves_bind; [|intros _].
    { apply preserves_cursor, displayCharacterData_respects; frame. }
    apply preserves_bind; [|intros _].
    { apply preserves_cursor, displayStarships_respects; frame. }
    apply preserves_bind; [|intros _].
    { apply preserves_cursor, displayLargePlanets_respects; frame. }
    apply preserves_bind; [|intros _].
    { apply preserves_cursor, displayFilms_respects; frame. }
    apply preserves_bind; [|intros _].
    { intros st net Hst. apply (displayVehicle_alone st net Hst). }
    apply preserves_cursor, displayStats_respects; frame.
  - intros e. apply preserves_cursor.
    apply all_acts_bind; [|intros _]; apply modify_respects; frame.
Qed.

End Cursor.

(** C10 on overlapping runs: the guard of line 134 and the increment of
    line 146 are separated by the await of line 135.  With the cursor at
    4, two runs both pass the guard before either increments, both ask
    for [vehicles/4], and the cursor ends at 6. *)
Theorem cursor_past_five :
  let start := (initial, []) in
  let before :=
    fst (react_all parse_example stringify_example lt_example iso_date
          sort_example
                   (firstn 14 overlapping_runs) start) in
  let after :=
    fst (react_all parse_example stringify_example lt_example iso_date
          sort_example
                   overlapping_runs start) in
  lastCharacterId before = 4 /\
  lastCharacterId after = 6 /\
  ~ cursor_in_range after /\
  errorCount after = 0 /\
  requests after =
    ["people/1"; "starships/?page=1"; "planets/?page=1"; "films/";
     "vehicles/1"; "people/2"; "vehicles/2"; "people/3"; "vehicles/3";
     "people/4"; "vehicles/4"; "vehicles/4"].
Proof.
  vm_compute. repeat split; try reflexivity.
  intros [_ H]. apply H. reflexivity.
Qed.

(** ** The planet display *)

Lemma convertible_text v :
  convertible v = true -> ToString_opt v = Some (text v).
Proof.
  unfold convertible, text. destruct (ToString_opt v); [reflexivity|discriminate].
Qed.

Lemma exec_non_null {A : Type} v (k : proc A) st net :
  v <> JNull -> exec (non_null v >> k) st net = exec k st net.
Proof. intros Hv. destruct v; try reflexivity. contradiction. Qed.

Lemma logged_app lines1 lines2 st :
  logged (lines1 ++ lines2) st = logged lines2 (logged lines1 st).
Proof. unfold logged. apply foldl_app. Qed.

(** Logging appends the lines to the console, in order. *)
Lemma console_logged lines st :
  console (logged lines st) = console st ++ lines.
Proof.
  revert st. induction lines as [|line lines IH]; intros st; simpl.
  - symmetry. apply app_nil_r.
  - rewrite IH. simpl. rewrite <- app_assoc. reflexivity.
Qed.

Section PlanetDisplay.

Variable JSON_parse : string -> option json.
Variable JSON_stringify : json -> string.
Variable js_lt : Z -> json -> option bool.




(** A planet made of strings is displayable. *)
Lemma planet_record_displayable planet :
  planet_record planet = true -> displayable js_lt planet = true.
Proof.
  unfold planet_record, displayable.
  destruct planet as [| | | | |ps]; try discriminate.
  destruct (prop (JObj ps) "population") as [[| | |p| |]|]; try discriminate.
  destruct (prop (JObj ps) "diameter") as [[| | |d| |]|]; try discriminate.
  intros H. apply andb_true_iff in H as [H Hfilms].
  apply andb_true_iff in H as [Hname Hclimate].
  cbn [convertible ToString_opt ToString andb].
  destruct (large_planet (JObj ps)); [|reflexivity].
  destruct (prop (JObj ps) "name") as [[| | |n| |]|]; try discriminate;
    destruct (prop (JObj ps) "climate") as [[| | |c| |]|]; try discriminate;
    destruct (prop (JObj ps) "films") as [[| | | |fs|]|]; try discriminate;
    reflexivity.
Qed.



End PlanetDisplay.


(** Numbers as text: plain digits below 10^21, the exponent form from
    there on, and in both the digits of the double nearest to the
    number. *)
Lemma numbers_as_text :
  ToString (JNum 36) = Some "36" /\
  ToString (JNum (-5)) = Some "-5" /\
  ToString (JNum 9007199254740993) = Some "9007199254740992" /\
  ToString (JNum 123456789012345678901) = Some "123456789012345680000" /\
  ToString (JNum (10 ^ 21)) = Some "1e+21" /\
  ToString (JNum (2 ^ 70)) = Some "1.1805916207174113e+21" /\
  ToString (JNum (- 10 ^ 25)) = Some "-1e+25" /\
  ToString (JNum (10 ^ 309)) = Some "Infinity".
Proof. vm_compute. repeat split; reflexivity. Qed.

(** A population that is a number is read through its text, like any
    other value: from 10^21 on that text is in exponent form, and
    [parseInt] reads no further than the digits before the point or the
    exponent. *)
Lemma numeric_population_excluded :
  displayable lt_example numeric_planet = true /\
  text (prop numeric_planet "population") = "1e+21" /\
  parseInt "1e+21" = Some (Finite 1) /\
  large_planet numeric_planet = false /\
  large_planet (JObj [("population", JNum 1500000000);
                      ("diameter", JNum 12000)]) = true.
Proof. vm_compute. repeat split; reflexivity. Qed.

(** ** The film display *)

(** *** The sort *)

Lemma insert_film_perm x l : Permutation (insert_film x l) (x :: l).
Proof.
  induction l as [|y l IH]; simpl.
  - reflexivity.
  - destruct (later (fst x) (fst y)).
    + rewrite IH. apply perm_swap.
    + reflexivity.
Qed.

Lemma sort_perm l : Permutation (foldr insert_film [] l) l.
Proof.
  induction l as [|x l IH]; simpl.
  - reflexivity.
  - rewrite insert_film_perm. apply perm_skip, IH.
Qed.

Lemma key_le_trans a b c : key_le a b -> key_le b c -> key_le a c.
Proof.
  unfold key_le.
  destruct (fst a), (fst b), (fst c); try tauto. lia.
Qed.

Lemma insert_film_sorted x l :
  has_key x -> Forall has_key l ->
  StronglySorted key_le l -> StronglySorted key_le (insert_film x l).
Proof.
  intros [t Hx] Hkeys Hsorted.
  induction Hsorted as [|y l Hl IH Hy]; simpl.
  - constructor; constructor.
  - apply Forall_cons_1 in Hkeys as [[u Hu] Hkeys].
    unfold later. rewrite Hx, Hu.
    destruct (u <? t) eqn:Hcmp.
    + constructor; [apply IH, Hkeys|].
      rewrite insert_film_perm. constructor; [|exact Hy].
      unfold key_le. rewrite Hx, Hu. lia.
    + assert (Hxy : key_le x y) by (unfold key_le; rewrite Hx, Hu; lia).
      constructor; [constructor; assumption|].
      constructor; [exact Hxy|].
      eapply Forall_impl; [exact Hy|].
      intros z Hz. simpl in Hz. eapply key_le_trans; eassumption.
Qed.

Lemma sort_sorted l :
  Forall has_key l -> StronglySorted key_le (foldr insert_film [] l).
Proof.
  induction l as [|x l IH]; intros Hkeys; simpl.
  - constructor.
  - apply Forall_cons_1 in Hkeys as [Hx Hkeys].
    apply insert_film_sorted; [exact Hx| |apply IH, Hkeys].
    rewrite sort_perm. exact Hkeys.
Qed.


Section FilmDisplay.

Variable JSON_parse : string -> option json.
Variable JSON_stringify : json -> string.
Variable Date_parse : string -> option Z.
Variable sort_undated : list (option Z * json) -> list json.

Lemma dated_release film :
  dated Date_parse film = true ->
  release_time Date_parse film = Some (Some (release_of Date_parse film)).
Proof.
  unfold dated, release_of.
  destruct (release_time Date_parse film) as [[t|]|]; [reflexivity|discriminate..].
Qed.

Lemma mapM_keyed items :
  forallb (dated Date_parse) items = true ->
  mapM (fun film => t ← release_time Date_parse film; Some (t, film)) items =
    Some (keyed Date_parse items).
Proof.
  induction items as [|film items IH]; intros Hd.
  - reflexivity.
  - cbn [forallb] in Hd. apply andb_true_iff in Hd as [Hfilm Hitems].
    cbn [mapM keyed map]. rewrite (dated_release film Hfilm). simpl.
    rewrite (IH Hitems). reflexivity.
Qed.

Lemma keyed_has_date items : forallb has_date (keyed Date_parse items) = true.
Proof. induction items as [|film items IH]; [reflexivity|exact IH]. Qed.

(** With valid dates throughout, the sort succeeds, and this is its
    result. *)
Lemma sort_films_dated items :
  forallb (dated Date_parse) items = true ->
  sort_films Date_parse sort_undated items =
    Some (snd <$> foldr insert_film [] (keyed Date_parse items)).
Proof.
  intros Hd. destruct items as [|a [|b items]]; try reflexivity.
  unfold sort_films. rewrite (mapM_keyed _ Hd). cbn [mbind option_bind].
  rewrite keyed_has_date. reflexivity.
Qed.

Lemma keyed_has_key items : Forall has_key (keyed Date_parse items).
Proof.
  induction items as [|film items IH]; constructor; auto.
  exists (release_of Date_parse film). reflexivity.
Qed.

Lemma snd_keyed items : snd <$> keyed Date_parse items = items.
Proof.
  induction items as [|film items IH]; simpl; [reflexivity|].
  f_equal. exact IH.
Qed.

Lemma sorted_films_perm items :
  Permutation items (snd <$> foldr insert_film [] (keyed Date_parse items)).
Proof.
  rewrite sort_perm, snd_keyed. reflexivity.
Qed.

Lemma sorted_films_sorted items :
  StronglySorted (earlier_or_same Date_parse)
    (snd <$> foldr insert_film [] (keyed Date_parse items)).
Proof.
  pose proof (sort_sorted _ (keyed_has_key items)) as Hsorted.
  assert (Hkeys : Forall (fun p => fst p = Some (release_of Date_parse (snd p)))
                         (foldr insert_film [] (keyed Date_parse items))).
  { rewrite sort_perm. clear Hsorted.
    induction items as [|film items IH]; constructor; auto. }
  induction Hsorted as [|p l Hl IH Hp]; simpl.
  - constructor.
  - apply Forall_cons_1 in Hkeys as [Hkey Hkeys].
    constructor; [apply IH, Hkeys|].
    apply Forall_fmap.
    rewrite Forall_forall in Hp, Hkeys |- *.
    intros q Hq. specialize (Hp q Hq). specialize (Hkeys q Hq).
    unfold key_le in Hp. rewrite Hkey, Hkeys in Hp. exact Hp.
Qed.



Lemma film_ok_dated films :
  forallb (film_ok Date_parse) films = true ->
  forallb (dated Date_parse) films = true.
Proof.
  rewrite !forallb_forall. intros Hok film Hin.
  specialize (Hok film Hin). unfold film_ok in Hok.
  repeat (apply andb_true_iff in Hok as [Hok ?]). assumption.
Qed.


End FilmDisplay.


(** What the film display prints for that page, and what it leaves in
    the cache: the entry for [films/] is the same object as before, but
    its array has been put in a different order. *)
Lemma films_entry_reordered :
  let st' := fst (run (displayFilms parse_example stringify_example iso_date
        sort_example)
                      films_cached []) in
  cache films_cached !! "films/" =
    Some (0%nat, JObj [("results", JArr [film "A New Hope" "1977-05-25";
                                        film "An earlier film" "1975-03-05"])]) /\
  cache st' !! "films/" =
    Some (0%nat, JObj [("results", JArr [film "An earlier film" "1975-03-05";
                                        film "A New Hope" "1977-05-25"])]) /\
  console st' =
    [ [LText "Using cached data for"; LText "films/"];
      [LText (nl +:+ "Star Wars Films in chronological order:")];
      [LText "1. An earlier film (1975-03-05)"];
      [LText "   Director: George Lucas"];
      [LText "   Producer: Gary Kurtz"];
      [LText "   Characters: 0"];
      [LText "   Planets: 0"];
      [LText "2. A New Hope (1977-05-25)"];
      [LText "   Director: George Lucas"];
      [LText "   Producer: Gary Kurtz"];
      [LText "   Characters: 0"];
      [LText "   Planets: 0"] ].
Proof. vm_compute. repeat split; reflexivity. Qed.


(** ** Start-up *)

Lemma includes_In flag args : includes flag args = true <-> In flag args.
Proof.
  unfold includes. rewrite existsb_exists. split.
  - intros (a & Ha & Heq). apply String.eqb_eq in Heq. subst. exact Ha.
  - intros Hin. exists flag. split; [exact Hin|apply String.eqb_refl].
Qed.

Lemma indexOf_absent flag args : ~ In flag args -> indexOf flag args = -1.
Proof.
  induction args as [|a args IH]; simpl; intros Hnot; [reflexivity|].
  destruct (String.eqb_spec a flag) as [->|_]; [tauto|].
  rewrite IH by tauto. reflexivity.
Qed.

Lemma indexOf_first flag pre rest :
  ~ In flag pre -> indexOf flag (pre ++ flag :: rest) = Z.of_nat (length pre).
Proof.
  induction pre as [|a pre IH]; simpl; intros Hnot.
  - rewrite String.eqb_refl. reflexivity.
  - destruct (String.eqb_spec a flag) as [->|_]; [tauto|].
    rewrite IH by tauto.
    destruct (Z.ltb_spec (Z.of_nat (length pre)) 0); lia.
Qed.

(** The timeout is read from the argument that follows the first
    [--timeout]; where that argument does not start with a number, the
    default stays, whatever comes later on the command line. *)
Theorem startup_timeout_value pre value rest :
  ~ In "--timeout" pre ->
  timeout (startup (pre ++ "--timeout" :: value :: rest)) =
    default DEFAULT_TIMEOUT (parseInt value).
Proof.
  intros Hpre. unfold startup.
  replace (includes "--timeout" (pre ++ "--timeout" :: value :: rest))
    with true
    by (symmetry; apply includes_In, in_or_app; right; left; reflexivity).
  rewrite (indexOf_first _ _ _ Hpre).
  rewrite length_app. cbn [length].
  replace (Z.of_nat (length pre) <?
           Z.of_nat (length pre + S (S (length rest))) - 1) with true
    by (symmetry; apply Z.ltb_lt; lia).
  unfold arg_at.
  replace (Z.of_nat (length pre) + 1 <? 0) with false
    by (symmetry; apply Z.ltb_ge; lia).
  replace (Z.to_nat (Z.of_nat (length pre) + 1)) with (length pre + 1)%nat by lia.
  rewrite nth_error_app2 by lia.
  replace (length pre + 1 - length pre)%nat with 1%nat by lia.
  cbn [nth_error].
  destruct (parseInt value) as [t|];
    destruct (includes "--no-debug" _); reflexivity.
Qed.

Lemma startup_timeout_value_witness :
  ~ In "--timeout" ["--no-debug"] /\
  timeout (startup (["--no-debug"] ++ "--timeout" :: "250ms" :: ["x"])) =
    default DEFAULT_TIMEOUT (parseInt "250ms") /\
  default DEFAULT_TIMEOUT (parseInt "250ms") = Finite 250.
Proof.
  split; [intros [H|[]]; discriminate|].
  split; [|reflexivity].
  apply (startup_timeout_value ["--no-debug"] "250ms" ["x"]).
  intros [H|[]]; discriminate.
Defined.

(** The value is a Number: digits beyond what a double holds are
    rounded, and enough of them give infinity. *)
Lemma startup_timeout_rounded :
  timeout (startup ["--timeout"; "9007199254740993"]) =
    Finite 9007199254740992 /\
  timeout (startup ["--timeout"; "-7"]) = Finite (-7) /\
  timeout (startup ["--timeout";
                    "1" +:+ String.concat "" (repeat "0" 309)]) =
    Infinite false.
Proof. vm_compute. repeat split; reflexivity. Qed.

(** Without [--timeout], or with [--timeout] as the last argument, the
    timeout keeps its default. *)
Theorem startup_timeout_default args :
  ~ In "--timeout" args \/
  (exists pre, args = pre ++ ["--timeout"] /\ ~ In "--timeout" pre) ->
  timeout (startup args) = DEFAULT_TIMEOUT.
Proof.
  intros [Habsent|(pre & -> & Hpre)]; unfold startup.
  - replace (includes "--timeout" args) with false.
    + destruct (includes "--no-debug" args); reflexivity.
    + symmetry. apply not_true_is_false. rewrite includes_In. exact Habsent.
  - destruct (includes "--timeout" _);
      [|destruct (includes "--no-debug" _); reflexivity].
    rewrite (indexOf_first _ _ _ Hpre), length_app. cbn [length].
    replace (Z.of_nat (length pre) <? Z.of_nat (length pre + 1) - 1)
      with false by (symmetry; apply Z.ltb_ge; lia).
    destruct (includes "--no-debug" _); reflexivity.
Qed.

Lemma startup_timeout_default_witness :
  (~ In "--timeout" ["--no-debug"; "--timeout"] \/
   exists pre, ["--no-debug"; "--timeout"] = pre ++ ["--timeout"] /\
               ~ In "--timeout" pre) /\
  timeout (startup ["--no-debug"; "--timeout"]) = DEFAULT_TIMEOUT.
Proof.
  assert (Hlast : ~ In "--timeout" ["--no-debug"; "--timeout"] \/
                  exists pre,
                    ["--no-debug"; "--timeout"] = pre ++ ["--timeout"] /\
                    ~ In "--timeout" pre).
  { right. exists ["--no-debug"]. split; [reflexivity|].
    intros [Heq|[]]; discriminate. }
  split; [exact Hlast|].
  apply (startup_timeout_default ["--no-debug"; "--timeout"] Hlast).
Defined.

(** Reading the command line sets the two settings and nothing else:
    the cache is empty and the counters are at their initial values.
    Verbose logging is off exactly when [--no-debug] occurs among the
    arguments, wherever it stands; and the timeout is the default or a
    number read from one of the arguments. *)
Theorem startup_only_configures args :
  startup args =
    set_timeout (timeout (startup args))
                (set_debugMode (debugMode (startup args)) initial) /\
  (debugMode (startup args) = false <-> In "--no-debug" args) /\
  (timeout (startup args) = DEFAULT_TIMEOUT \/
   exists value, In value args /\
                 parseInt value = Some (timeout (startup args))).
Proof.
  unfold startup.
  assert (Hdebug : (if includes "--no-debug" args then false else true) = false
                   <-> In "--no-debug" args).
  { rewrite <- includes_In. destruct (includes "--no-debug" args);
      split; congruence. }
  destruct (includes "--timeout" args);
    [|destruct (includes "--no-debug" args) eqn:Hd; simpl;
      rewrite <- includes_In, Hd;
      (split; [reflexivity|split; [split; congruence|left; reflexivity]])].
  destruct (_ <? _);
    [|destruct (includes "--no-debug" args) eqn:Hd; simpl;
      rewrite <- includes_In, Hd;
      (split; [reflexivity|split; [split; congruence|left; reflexivity]])].
  destruct (arg_at args _) as [value|] eqn:Harg;
    [|destruct (includes "--no-debug" args) eqn:Hd; simpl;
      rewrite <- includes_In, Hd;
      (split; [reflexivity|split; [split; congruence|left; reflexivity]])].
  assert (Hin : In value args).
  { unfold arg_at in Harg. destruct (_ <? 0); [discriminate|].
    eapply nth_error_In; exact Harg. }
  destruct (parseInt value) as [t|] eqn:Hparse;
    destruct (includes "--no-debug" args) eqn:Hd; simpl;
    rewrite <- includes_In, Hd;
    (split; [reflexivity|split; [split; congruence|]]);
    try (left; reflexivity);
    right; exists value; auto.
Qed.

(** ** More on the Fetch Client *)

Section FetchOutcomes.

Variable JSON_parse : string -> option json.

(** A promise that is settled stays as it is. *)
Lemma handle_settled endpoint evs st rq r :
  settled rq = Some r ->
  settled (snd (deliver_all JSON_parse endpoint evs st rq)) = Some r.
Proof.
  revert st rq. induction evs as [|ev evs IH]; intros st rq Hr; simpl.
  - exact Hr.
  - destruct (deliver JSON_parse endpoint ev st rq) as [st' rq'] eqn:Hev.
    apply IH.
    destruct ev as [code|chunk| |msg|]; simpl in Hev.
    + destruct (responded rq); [congruence|].
      unfold on_response in Hev.
      destruct (400 <=? code); inversion Hev; subst; simpl; rewrite ?Hr;
        reflexivity.
    + destruct (listening rq); inversion Hev; subst; simpl; exact Hr.
    + destruct (listening rq); [|inversion Hev; subst; exact Hr].
      unfold on_end in Hev.
      destruct (JSON_parse (responseData rq)); inversion Hev; subst; simpl;
        rewrite Hr; reflexivity.
    + inversion Hev; subst. simpl. rewrite Hr. reflexivity.
    + destruct (aborted rq); inversion Hev; subst; simpl; rewrite ?Hr;
        reflexivity.
Qed.



(** The first event that settles the promise decides what the caller
    sees: whatever events follow, the result of the call is the same. *)
Theorem fetch_first_settlement_wins endpoint st evs later_evs net :
  cache_hit (cache st) endpoint = None ->
  snd (run (fetchResource JSON_parse endpoint) st (evs :: net)) <> Blocked ->
  snd (run (fetchResource JSON_parse endpoint) st ((evs ++ later_evs) :: net)) =
  snd (run (fetchResource JSON_parse endpoint) st (evs :: net)).
Proof.
  intros Hmiss. unfold run. rewrite !exec_fetch_miss by exact Hmiss. simpl.
  rewrite handle_app.
  destruct (deliver_all JSON_parse endpoint evs _ _) as [st1 rq1]. simpl.
  unfold promise_outcome at 1 3.
  destruct (settled rq1) as [r|] eqn:Hr; [|congruence].
  intros _. unfold promise_outcome.
  rewrite (handle_settled endpoint later_evs st1 rq1 r Hr). reflexivity.
Qed.


(** The cache is an object literal, so the names defined on
    [Object.prototype] look like entries that are always present: a
    fetch of such a name never issues a request, whatever the network
    would answer, and hands back the inherited member instead of a JSON
    value.  No fetch ever turns one of these names into a key of the
    cache. *)
Theorem fetch_inherited_name endpoint st net :
  (forall k, inherited k = true -> cache st !! k = None) ->
  inherited endpoint = true ->
  exec (fetchResource JSON_parse endpoint) st net =
    (debug_log [LText "Using cached data for"; LText endpoint] st,
     Returned (Builtin endpoint), net) /\
  forall any k,
    inherited k = true ->
    cache (fst (run (fetchResource JSON_parse any) st net)) !! k = None.
Proof.
  intros Hfree Hep. split.
  - apply exec_fetch_hit. unfold cache_hit, cache_get.
    rewrite (Hfree _ Hep), Hep. reflexivity.
  - intros any k Hk. apply fetch_prototype_names; assumption.
Qed.

End FetchOutcomes.



Lemma fetch_first_settlement_wins_witness :
  cache_hit (cache initial) "people/1" = None /\
  snd (run (fetchResource parse_example "people/1") initial
           ([Response 200; Timeout] :: [])) <> Blocked /\
  snd (run (fetchResource parse_example "people/1") initial
           (([Response 200; Timeout] ++ [Data "{}"; End]) :: [])) =
  snd (run (fetchResource parse_example "people/1") initial
           ([Response 200; Timeout] :: [])).
Proof.
  split; [reflexivity|]. split; [discriminate|].
  apply (fetch_first_settlement_wins parse_example "people/1" initial
           [Response 200; Timeout] [Data "{}"; End] []);
    [reflexivity|discriminate].
Defined.


Lemma fetch_inherited_name_witness :
  (forall k, inherited k = true -> cache initial !! k = None) /\
  inherited "constructor" = true /\
  exec (fetchResource parse_example "constructor") initial
       [complete_response 200 ["{}"]] =
    (debug_log [LText "Using cached data for"; LText "constructor"] initial,
     Returned (Builtin "constructor"), [complete_response 200 ["{}"]]).
Proof.
  split; [intros k _; apply lookup_empty|]. split; [reflexivity|].
  apply (fetch_inherited_name parse_example "constructor" initial
           [complete_response 200 ["{}"]]);
    [intros k _; apply lookup_empty|reflexivity].
Defined.

(** ** Whole runs and the event loop *)

Lemma caught_try_catch {A : Type} (p : proc A) (h : error -> proc A) :
  (forall e, caught (h e)) -> caught (try_catch p h).
Proof.
  intros Hh. induction p as [a|e|C g k IH|ep k IH|]; simpl; auto.
Qed.

Lemma caught_exec {A : Type} (p : proc A) st net e :
  caught p -> snd (fst (exec p st net)) <> Thrown e.
Proof.
  revert st net. induction p as [a|e'|C g k IH|ep k IH|]; simpl;
    intros st net Hp; try discriminate; try contradiction.
  - destruct (g st) as [st' b]. apply IH, Hp.
  - destruct net as [|evs net']; [discriminate|apply IH, Hp].
Qed.

Lemma caught_advance {A : Type} (p : proc A) st :
  caught p -> caught (snd (advance p st)).
Proof.
  revert st. induction p as [a|e'|C g k IH|ep k IH|]; simpl;
    intros st Hp; auto.
  destruct (g st) as [st' b]. apply IH, Hp.
Qed.

Section EventLoop.

Variable JSON_parse : string -> option json.
Variable JSON_stringify : json -> string.
Variable js_lt : Z -> json -> option bool.
Variable Date_parse : string -> option Z.
Variable sort_undated : list (option Z * json) -> list json.

Lemma runDemo_caught :
  caught (runDemo JSON_parse JSON_stringify js_lt Date_parse sort_undated).
Proof. unfold runDemo. apply caught_try_catch. intros e. simpl. auto. Qed.

Lemma react_caught s st tasks :
  Forall caught tasks ->
  Forall caught
    (snd (react JSON_parse JSON_stringify js_lt Date_parse
          sort_undated s (st, tasks))).
Proof.
  intros Htasks. destruct s as [url|i evs]; cbn [react].
  - unfold server.
    destruct (_ || _); [simpl; rewrite app_nil_r; exact Htasks|].
    destruct (String.eqb url "/api").
    + pose proof (caught_advance _ st runDemo_caught) as Htask.
      destruct (advance (runDemo _ _ _ _ _) st) as [st' task]. simpl in *.
      apply Forall_app. split; [exact Htasks|]. constructor; auto.
    + destruct (String.eqb url "/stats"); simpl; rewrite app_nil_r;
        exact Htasks.
  - destruct (tasks !! i) as [t|] eqn:Hi; simpl; auto.
    destruct t as [a|e|C g k|ep k|]; simpl; auto.
    assert (Hk : caught (k evs)).
    { rewrite Forall_forall in Htasks.
      apply list_elem_of_lookup_2 in Hi. apply (Htasks _ Hi). }
    pose proof (caught_advance _ st Hk) as Ht.
    destruct (advance (k evs) st) as [st' t']. simpl in *.
    apply Forall_insert; auto.
Qed.

(** No error escapes a run: [runDemo] never ends with an exception,
    whatever the state and whatever the network does, and no run started
    through [/api] is ever left in a failed state in the event loop. *)
Theorem runDemo_never_throws st net stimuli :
  (forall e,
     snd (run (runDemo JSON_parse JSON_stringify js_lt Date_parse
           sort_undated) st net) <>
       Thrown e) /\
  Forall (fun task => forall e, task <> Throw e)
    (snd (react_all JSON_parse JSON_stringify js_lt Date_parse
          sort_undated stimuli (st, []))).
Proof.
  split.
  - intros e. apply caught_exec, runDemo_caught.
  - assert (H : forall tasks st0,
              Forall caught tasks ->
              Forall caught
                (snd (react_all JSON_parse JSON_stringify js_lt Date_parse
                      sort_undated
                                stimuli (st0, tasks)))).
    { unfold react_all. induction stimuli as [|s ss IH]; intros tasks st0 Ht;
        cbn [foldl]; [exact Ht|].
      pose proof (react_caught s st0 tasks Ht) as Hs.
      destruct (react _ _ _ _ _ s (st0, tasks)) as [st' tasks']. apply IH, Hs. }
    eapply Forall_impl; [apply (H [] st); constructor|].
    intros task Htask e ->. exact Htask.
Qed.

(** Nothing the process does after start-up touches the two settings:
    the verbose flag and the timeout are the same after any sequence of
    inbound requests and network events. *)
Theorem settings_never_change st stimuli :
  settings_frame st
    (fst (react_all JSON_parse JSON_stringify js_lt Date_parse
          sort_undated stimuli (st, []))).
Proof.
  apply (react_all_respects JSON_parse JSON_stringify js_lt Date_parse
        sort_undated
           settings_frame);
    try (unfold settings_frame; intros; simpl in *; intuition congruence).
  constructor.
Qed.

(** Nothing is ever evicted: an endpoint that has an entry in the cache
    still has one after any sequence of inbound requests and network
    events. *)
Theorem cache_never_evicts st stimuli :
  keys_kept st
    (fst (react_all JSON_parse JSON_stringify js_lt Date_parse
          sort_undated stimuli (st, []))).
Proof.
  apply (react_all_respects JSON_parse JSON_stringify js_lt Date_parse
        sort_undated
           keys_kept);
    try (unfold keys_kept; intros; simpl in *; auto; fail).
  - unfold keys_kept. intros endpoint j st0 k Hk. simpl.
    destruct (decide (endpoint = k)) as [->|Hne].
    + rewrite lookup_insert_eq. eauto.
    + rewrite lookup_insert_ne by exact Hne. exact Hk.
  - unfold keys_kept, sorted_in_place. intros oid sorted st0 k Hk. simpl.
    rewrite lookup_fmap. destruct Hk as [v ->]. simpl. eauto.
Qed.

End EventLoop.

Section Orchestrator.

Variable JSON_parse : string -> option json.
Variable JSON_stringify : json -> string.
Variable js_lt : Z -> json -> option bool.
Variable Date_parse : string -> option Z.
Variable sort_undated : list (option Z * json) -> list json.

(** What is left of a run once the attempt has been counted. *)
Lemma runDemo_started st :
  fetchCount (fst (advance (runDemo JSON_parse JSON_stringify js_lt Date_parse
        sort_undated) st)) =
    fetchCount st + 1 /\
  all_acts attempts_frame
    (snd (advance (runDemo JSON_parse JSON_stringify js_lt Date_parse
          sort_undated) st)).
Proof.
  unfold runDemo. cbn [try_catch bind modify advance].
  match goal with |- context [advance ?p ?s] =>
    assert (Hp : all_acts attempts_frame p);
    [|destruct (all_acts_advance attempts_frame p ltac:(frame) ltac:(frame)
                  Hp s) as [Hcount Hrest]]
  end.
  { apply all_acts_try_catch.
    - apply all_acts_bind; [|intros _].
      { apply displayCharacterData_respects; frame. }
      apply all_acts_bind; [|intros _].
      { apply displayStarships_respects; frame. }
      apply all_acts_bind; [|intros _].
      { apply displayLargePlanets_respects; frame. }
      apply all_acts_bind; [|intros _].
      { apply displayFilms_respects; frame. }
      apply all_acts_bind; [|intros _].
      { apply displayVehicle_respects; frame. }
      apply displayStats_respects; frame.
    - intros e. apply all_acts_bind; [|intros _]; apply modify_respects; frame. }
  split; [|exact Hrest].
  unfold attempts_frame in Hcount. rewrite Hcount. simpl.
  unfold debug_log. destruct (debugMode st); reflexivity.
Qed.

Lemma react_attempts s st tasks :
  Forall (all_acts attempts_frame) tasks ->
  fetchCount (fst (react JSON_parse JSON_stringify js_lt Date_parse
        sort_undated s (st, tasks))) =
    fetchCount st + api_requests [s] /\
  Forall (all_acts attempts_frame)
    (snd (react JSON_parse JSON_stringify js_lt Date_parse
          sort_undated s (st, tasks))).
Proof.
  intros Htasks. destruct s as [url|i evs]; cbn [react].
  - unfold server, api_requests. cbn [List.filter].
    destruct (String.eqb_spec url "/api") as [->|Hurl].
    + cbn [String.eqb Ascii.eqb Bool.eqb orb length].
      destruct (runDemo_started st) as [Hcount Htask].
      destruct (advance (runDemo _ _ _ _ _) st) as [st' task]. simpl in *.
      split; [lia|]. apply Forall_app. split; [exact Htasks|].
      constructor; auto.
    + destruct (_ || _); [simpl; rewrite app_nil_r; split; [lia|exact Htasks]|].
      destruct (String.eqb url "/stats"); simpl; rewrite app_nil_r;
        (split; [lia|exact Htasks]).
  - unfold api_requests. cbn [List.filter length].
    destruct (tasks !! i) as [t|] eqn:Hi; simpl; [|split; [lia|exact Htasks]].
    destruct t as [a|e|C g k|ep k|]; simpl; try (split; [lia|exact Htasks]).
    assert (Hk : all_acts attempts_frame (k evs)).
    { rewrite Forall_forall in Htasks.
      apply list_elem_of_lookup_2 in Hi. apply (Htasks _ Hi). }
    destruct (all_acts_advance attempts_frame (k evs) ltac:(frame) ltac:(frame)
                Hk st) as [Hcount Ht].
    destruct (advance (k evs) st) as [st' t']. simpl in *.
    unfold attempts_frame in Hcount.
    split; [lia|]. apply Forall_insert; auto.
Qed.

(** The attempt counter reported as [api_calls] counts the requests for
    [/api], one at the moment each arrives, and nothing else: not the
    network requests, not the runs that completed.  After any sequence
    of inbound requests and network events it has grown by the number of
    [/api] requests among them. *)
Theorem api_calls_count_requests st stimuli :
  fetchCount
    (fst (react_all JSON_parse JSON_stringify js_lt Date_parse
          sort_undated stimuli (st, []))) =
    fetchCount st + api_requests stimuli.
Proof.
  assert (H : forall tasks st0,
            Forall (all_acts attempts_frame) tasks ->
            fetchCount
              (fst (react_all JSON_parse JSON_stringify js_lt Date_parse
                    sort_undated
                              stimuli (st0, tasks))) =
              fetchCount st0 + api_requests stimuli).
  { unfold react_all. induction stimuli as [|s ss IH]; intros tasks st0 Ht;
      cbn [foldl].
    - unfold api_requests. simpl. lia.
    - destruct (react_attempts s st0 tasks Ht) as [Hs Ht'].
      destruct (react _ _ _ _ _ s (st0, tasks)) as [st' tasks'].
      cbn [fst snd] in *. rewrite (IH _ _ Ht'), Hs.
      unfold api_requests. cbn [List.filter].
      destruct s as [url|]; [destruct (String.eqb url "/api")|];
        cbn [length]; lia. }
  apply H. constructor.
Qed.


(** Runs that do not overlap keep the cursor between 1 and 5, however
    many there are and whatever the network answers. *)
Theorem whole_runs_keep_cursor st nets :
  cursor_in_range st ->
  cursor_in_range
    (foldl (fun st net =>
              fst (run (runDemo JSON_parse JSON_stringify js_lt Date_parse
                    sort_undated)
                       st net))
           st nets).
Proof.
  revert st. induction nets as [|net nets IH]; intros st Hst; cbn [foldl].
  - exact Hst.
  - apply IH. apply (runDemo_alone JSON_parse JSON_stringify js_lt Date_parse
        sort_undated
                       st net Hst).
Qed.

End Orchestrator.


Lemma whole_runs_keep_cursor_witness :
  cursor_in_range initial /\
  cursor_in_range
    (foldl (fun st net =>
              fst (run (runDemo parse_example stringify_example lt_example
                                iso_date sort_example) st net))
           initial six_runs) /\
  lastCharacterId
    (foldl (fun st net =>
              fst (run (runDemo parse_example stringify_example lt_example
                                iso_date sort_example) st net))
           initial six_runs) = 5.
Proof.
  assert (H : cursor_in_range initial)
    by (unfold cursor_in_range, MAX_VEHICLE_ID; simpl; lia).
  split; [exact H|]. split; [|reflexivity].
  apply (whole_runs_keep_cursor parse_example stringify_example lt_example
           iso_date sort_example initial six_runs H).
Defined.

(** ** More on the film sort *)

Lemma insert_film_least x l :
  StronglySorted key_le (x :: l) -> insert_film x l = x :: l.
Proof.
  intros Hsorted. destruct l as [|y l]; [reflexivity|].
  apply StronglySorted_inv in Hsorted as [_ Hx].
  apply Forall_cons_1 in Hx as [Hxy _].
  unfold key_le in Hxy. simpl. unfold later.
  destruct (fst x) as [a|]; [|contradiction].
  destruct (fst y) as [b|]; [|contradiction].
  destruct (Z.ltb_spec b a); [lia|reflexivity].
Qed.

Lemma sort_sorted_id l :
  StronglySorted key_le l -> foldr insert_film [] l = l.
Proof.
  induction 1 as [|x l Hl IH Hx]; simpl; [reflexivity|].
  rewrite IH. apply insert_film_least. constructor; assumption.
Qed.

Section FilmSort.

Variable Date_parse : string -> option Z.
Variable sort_undated : list (option Z * json) -> list json.

Lemma sorted_keys items :
  Forall (fun p => fst p = Some (release_of Date_parse (snd p)))
         (foldr insert_film [] (keyed Date_parse items)).
Proof.
  rewrite sort_perm.
  induction items as [|film items IH]; constructor; auto.
Qed.

Lemma keyed_snd ks :
  Forall (fun p => fst p = Some (release_of Date_parse (snd p))) ks ->
  keyed Date_parse (snd <$> ks) = ks.
Proof.
  induction 1 as [|[t film] ks Hp Hks IH]; simpl; [reflexivity|].
  simpl in Hp. subst t. f_equal. exact IH.
Qed.

Lemma dated_perm items1 items2 :
  Permutation items1 items2 ->
  forallb (dated Date_parse) items1 = true ->
  forallb (dated Date_parse) items2 = true.
Proof.
  intros Hperm. rewrite !forallb_forall. intros H film Hin.
  apply H. eapply Permutation_in; [symmetry; exact Hperm|exact Hin].
Qed.

(** Sorting what has been sorted changes nothing: a second display of
    the films, which finds the sorted array in the cache, sorts it to
    the same order. *)
Theorem sort_films_idempotent items :
  forallb (dated Date_parse) items = true ->
  exists sortedFilms,
    sort_films Date_parse sort_undated items = Some sortedFilms /\
    sort_films Date_parse sort_undated sortedFilms = Some sortedFilms.
Proof.
  intros Hd.
  exists (snd <$> foldr insert_film [] (keyed Date_parse items)).
  split; [apply sort_films_dated, Hd|].
  rewrite sort_films_dated
    by (eapply dated_perm; [apply sorted_films_perm|exact Hd]).
  rewrite (keyed_snd _ (sorted_keys items)).
  rewrite (sort_sorted_id _ (sort_sorted _ (keyed_has_key Date_parse items))).
  reflexivity.
Qed.

(** Two lists in release order that hold the same films, no two of them
    released at the same moment, are the same list. *)
Lemma sorted_unique l1 l2 :
  StronglySorted (earlier_or_same Date_parse) l1 ->
  StronglySorted (earlier_or_same Date_parse) l2 ->
  Permutation l1 l2 ->
  NoDup (map (release_of Date_parse) l1) ->
  l1 = l2.
Proof.
  revert l2. induction l1 as [|a l1 IH]; intros l2 Hs1 Hs2 Hperm Hnd.
  - apply Permutation_nil in Hperm. congruence.
  - destruct l2 as [|b l2];
      [apply Permutation_sym, Permutation_nil in Hperm; discriminate|].
    apply StronglySorted_inv in Hs1 as [Hs1 Ha].
    apply StronglySorted_inv in Hs2 as [Hs2 Hb].
    simpl in Hnd. apply NoDup_cons in Hnd as [Hfresh Hnd].
    assert (Hba : In b (a :: l1))
      by (eapply Permutation_in; [symmetry; exact Hperm|left; reflexivity]).
    assert (Hab : In a (b :: l2))
      by (eapply Permutation_in; [exact Hperm|left; reflexivity]).
    assert (Heq : b = a).
    { destruct Hba as [Hba|Hba]; [congruence|].
      destruct Hab as [Hab|Hab]; [congruence|].
      rewrite Forall_forall in Ha, Hb.
      pose proof (Ha b (proj2 (list_elem_of_In _ _) Hba)) as H1.
      pose proof (Hb a (proj2 (list_elem_of_In _ _) Hab)) as H2.
      unfold earlier_or_same in H1, H2.
      exfalso. apply Hfresh. apply list_elem_of_In.
      replace (release_of Date_parse a) with (release_of Date_parse b) by lia.
      apply in_map. exact Hba. }
    subst b. f_equal.
    apply IH; auto. eapply Permutation_cons_inv. exact Hperm.
Qed.

(** The printed order does not depend on the order of the page: two
    pages holding the same films, no two of them released at the same
    moment, are sorted to the same list. *)
Theorem sort_films_order_independent items1 items2 :
  Permutation items1 items2 ->
  forallb (dated Date_parse) items1 = true ->
  NoDup (map (release_of Date_parse) items1) ->
  sort_films Date_parse sort_undated items1 =
  sort_films Date_parse sort_undated items2.
Proof.
  intros Hperm Hd Hnd.
  rewrite (sort_films_dated _ _ _ Hd).
  rewrite (sort_films_dated _ _ _ (dated_perm _ _ Hperm Hd)).
  f_equal. apply sorted_unique.
  - apply sorted_films_sorted.
  - apply sorted_films_sorted.
  - rewrite <- !sorted_films_perm. exact Hperm.
  - assert (Hp : Permutation
                   (map (release_of Date_parse) items1)
                   (map (release_of Date_parse)
                        (snd <$> foldr insert_film [] (keyed Date_parse items1))))
      by apply Permutation_map, sorted_films_perm.
    rewrite <- Hp. exact Hnd.
Qed.

End FilmSort.

Lemma sort_films_idempotent_witness :
  forallb (dated iso_date)
          [film "A New Hope" "1977-05-25";
           film "An earlier film" "1975-03-05"] = true /\
  exists sortedFilms,
    sort_films iso_date sort_example [film "A New Hope" "1977-05-25";
                         film "An earlier film" "1975-03-05"] =
      Some sortedFilms /\
    sort_films iso_date sort_example sortedFilms = Some sortedFilms.
Proof.
  split; [reflexivity|].
  apply (sort_films_idempotent iso_date sort_example
           [film "A New Hope" "1977-05-25";
            film "An earlier film" "1975-03-05"]).
  reflexivity.
Defined.

Lemma sort_films_order_independent_witness :
  Permutation [film "A New Hope" "1977-05-25";
               film "An earlier film" "1975-03-05"]
              [film "An earlier film" "1975-03-05";
               film "A New Hope" "1977-05-25"] /\
  sort_films iso_date sort_example [film "A New Hope" "1977-05-25";
                       film "An earlier film" "1975-03-05"] =
  sort_films iso_date sort_example [film "An earlier film" "1975-03-05";
                       film "A New Hope" "1977-05-25"].
Proof.
  split; [apply perm_swap|].
  apply (sort_films_order_independent iso_date sort_example
           [film "A New Hope" "1977-05-25";
            film "An earlier film" "1975-03-05"]
           [film "An earlier film" "1975-03-05";
            film "A New Hope" "1977-05-25"]).
  - apply perm_swap.
  - reflexivity.
  - vm_compute. repeat constructor; simpl; intros H;
      repeat (apply elem_of_cons in H as [H|H]; [discriminate|]);
      inversion H.
Defined.

(** ** The starship display *)

Section StarshipDisplay.

Variable JSON_parse : string -> option json.
Variable JSON_stringify : json -> string.
Variable js_lt : Z -> json -> option bool.

Lemma exec_show_starship ship i st net :
  ship_ok js_lt ship = true ->
  exec (show_starship js_lt (Some ship) i) st net =
    (logged (ship_lines js_lt ship i) st, Returned tt, net).
Proof.
  unfold ship_ok. intros Hok.
  apply andb_true_iff in Hok as [Hok Hpilots].
  apply andb_true_iff in Hok as [Hnn Hcost].
  unfold show_starship, ship_lines, has_pilots, when_nonempty.
  destruct ship; try discriminate;
    cbn -[pretty text ToString_opt is_unknown prop lt_value optional_length];
    (destruct (lt_value js_lt 0 _) as [pilots|]; [|discriminate]);
    (destruct (is_unknown _) eqn:Hunknown;
     [|cbn [orb] in Hcost; apply convertible_text in Hcost; rewrite Hcost]);
    destruct pilots; reflexivity.
Qed.

Lemma exec_starship_loop left :
  forall done todo page st net,
    prop page "results" = Some (JArr (done ++ todo)) ->
    forallb (ship_ok js_lt) (firstn left todo) = true ->
    exec (starship_loop js_lt left (Z.of_nat (length done)) page) st net =
      (logged (numbered_ship_lines js_lt (firstn left todo)
                                   (Z.of_nat (length done))) st,
       Returned tt, net).
Proof.
  induction left as [|left IH]; intros done todo page st net Hres Hok;
    cbn [starship_loop]; rewrite exec_bind, Hres; cbn [defined exec];
    cbn [prop String.eqb Ascii.eqb Bool.eqb lt_value].
  - reflexivity.
  - destruct todo as [|ship todo].
    + rewrite app_nil_r. rewrite Z.ltb_irrefl. reflexivity.
    + replace (Z.of_nat (length done) <?
               Z.of_nat (length (done ++ ship :: todo))) with true
        by (symmetry; apply Z.ltb_lt; rewrite length_app; simpl; lia).
      cbn [firstn forallb] in Hok. apply andb_true_iff in Hok as [Hship Hok].
      unfold index.
      replace (Z.of_nat (length done) <? 0) with false
        by (symmetry; apply Z.ltb_ge; lia).
      rewrite Nat2Z.id, nth_error_app2, Nat.sub_diag by lia.
      cbn [nth_error]. rewrite exec_bind, (exec_show_starship _ _ _ _ Hship).
      replace (Z.of_nat (length done) + 1)
        with (Z.of_nat (length (done ++ [ship])))
        by (rewrite length_app; simpl; lia).
      rewrite (IH (done ++ [ship]) todo page)
        by (rewrite <- ?app_assoc; assumption).
      cbn [firstn numbered_ship_lines]. rewrite logged_app.
      replace (Z.of_nat (length (done ++ [ship])))
        with (Z.of_nat (length done) + 1)
        by (rewrite length_app; simpl; lia).
      reflexivity.
Qed.

(** The starship display adds to the console the total and then the
    lines of the first three ships of the page, or of all of them where
    the page has fewer, in page order; later ships are not looked at. *)
Theorem starships_display st net st1 oid page net1 items :
  exec (fetchResource JSON_parse "starships/?page=1") st net =
    (st1, Returned (JV oid page), net1) ->
  prop page "results" = Some (JArr items) ->
  forallb (ship_ok js_lt) (firstn STARSHIPS_LIMIT items) = true ->
  exec (displayStarships JSON_parse JSON_stringify js_lt) st net =
    (logged ([LText (nl +:+ "Total Starships:"); LVal (prop page "count")] ::
             numbered_ship_lines js_lt (firstn STARSHIPS_LIMIT items) 0)
            (add_totalDataSize
               (Z.of_nat (String.length (JSON_stringify page))) st1),
     Returned tt, net1) /\
  console (fst (fst (exec (displayStarships JSON_parse JSON_stringify js_lt)
                          st net))) =
    console st1 ++
    [LText (nl +:+ "Total Starships:"); LVal (prop page "count")] ::
    numbered_ship_lines js_lt (firstn STARSHIPS_LIMIT items) 0.
Proof.
  intros Hfetch Hresults Hok.
  assert (Hexec :
    exec (displayStarships JSON_parse JSON_stringify js_lt) st net =
      (logged ([LText (nl +:+ "Total Starships:"); LVal (prop page "count")] ::
               numbered_ship_lines js_lt (firstn STARSHIPS_LIMIT items) 0)
              (add_totalDataSize
                 (Z.of_nat (String.length (JSON_stringify page))) st1),
       Returned tt, net1)).
  { unfold displayStarships. rewrite exec_bind, Hfetch.
    cbn [measured]. rewrite !exec_bind. cbn [exec modify fst snd say].
    rewrite exec_non_null by (intros ->; discriminate).
    rewrite exec_bind. cbn [exec modify fst snd say].
    rewrite (exec_starship_loop STARSHIPS_LIMIT [] items page) by assumption.
    reflexivity. }
  split; [exact Hexec|].
  rewrite Hexec. cbn [fst]. rewrite console_logged. reflexivity.
Qed.

End StarshipDisplay.

Lemma starships_display_witness :
  exec (fetchResource parse_example "starships/?page=1") starships_cached [] =
    (debug_log [LText "Using cached data for"; LText "starships/?page=1"]
               starships_cached,
     Returned (JV 0 four_ships), []) /\
  forallb (ship_ok lt_example)
          (firstn STARSHIPS_LIMIT
                  [ship "CR90 corvette" (JStr "3500000");
                   ship "Star Destroyer" (JStr "unknown");
                   ship "Sentinel-class landing craft" (JNum (10 ^ 21));
                   ship "Death Star" JNull]) = true /\
  console (fst (fst (exec (displayStarships parse_example stringify_example
                                            lt_example)
                          starships_cached []))) =
    [ [LText "Using cached data for"; LText "starships/?page=1"];
      [LText (nl +:+ "Total Starships:"); LVal (Some (JNum 36))];
      [LText (nl +:+ "Starship 1:")];
      [LText "Name:"; LVal (Some (JStr "CR90 corvette"))];
      [LText "Model:"; LVal None];
      [LText "Manufacturer:"; LVal None];
      [LText "Cost:"; LText "3500000 credits"];
      [LText "Speed:"; LVal None];
      [LText "Hyperdrive Rating:"; LVal None];
      [LText (nl +:+ "Starship 2:")];
      [LText "Name:"; LVal (Some (JStr "Star Destroyer"))];
      [LText "Model:"; LVal None];
      [LText "Manufacturer:"; LVal None];
      [LText "Cost:"; LText "unknown"];
      [LText "Speed:"; LVal None];
      [LText "Hyperdrive Rating:"; LVal None];
      [LText (nl +:+ "Starship 3:")];
      [LText "Name:"; LVal (Some (JStr "Sentinel-class landing craft"))];
      [LText "Model:"; LVal None];
      [LText "Manufacturer:"; LVal None];
      [LText "Cost:"; LText "1e+21 credits"];
      [LText "Speed:"; LVal None];
      [LText "Hyperdrive Rating:"; LVal None] ].
Proof.
  split; [reflexivity|]. split; [reflexivity|].
  rewrite (proj2 (starships_display parse_example stringify_example lt_example
                    starships_cached [] _ 0%nat four_ships []
                    [ship "CR90 corvette" (JStr "3500000");
                     ship "Star Destroyer" (JStr "unknown");
                     ship "Sentinel-class landing craft" (JNum (10 ^ 21));
                     ship "Death Star" JNull]
                    eq_refl eq_refl eq_refl)).
  reflexivity.
Defined.

(** ** Pages of an unexpected shape *)

Section Shapes.

Variable JSON_parse : string -> option json.
Variable JSON_stringify : json -> string.
Variable js_lt : Z -> json -> option bool.
Variable Date_parse : string -> option Z.
Variable sort_undated : list (option Z * json) -> list json.


End Shapes.


(** ** The character display and the vehicle display *)

Section CharacterAndVehicleDisplay.

Variable JSON_parse : string -> option json.
Variable JSON_stringify : json -> string.
Variable js_lt : Z -> json -> option bool.



(** The cursor moves exactly when the vehicle display has run to its
    end with the cursor at 4 or less: if the display fails, is left
    waiting, or finds the cursor past 4, the cursor is where it was, so
    the next run asks for the same vehicle again. *)
Theorem vehicle_display_cursor st net :
  (snd (run (displayVehicle JSON_parse JSON_stringify) st net) <> Returned tt ->
   lastCharacterId (fst (run (displayVehicle JSON_parse JSON_stringify) st net)) =
     lastCharacterId st) /\
  (snd (run (displayVehicle JSON_parse JSON_stringify) st net) = Returned tt ->
   lastCharacterId (fst (run (displayVehicle JSON_parse JSON_stringify) st net)) =
     if lastCharacterId st <=? MAX_VEHICLE_ID
     then lastCharacterId st + 1 else lastCharacterId st).
Proof.
  unfold run, displayVehicle, Get. cbn [exec].
  set (endpoint := "vehicles/" +:+ pretty (lastCharacterId st)).
  destruct (lastCharacterId st <=? MAX_VEHICLE_ID) eqn:Hguard;
    [|simpl; split; [congruence|reflexivity]].
  rewrite exec_bind.
  pose proof (all_acts_exec fetch_frame (fetchResource JSON_parse endpoint)
                ltac:(frame) ltac:(frame)
                ltac:(apply fetchResource_respects; frame) st net)
    as (_ & _ & Hid).
  clearbody endpoint.
  destruct (exec (fetchResource JSON_parse endpoint) st net)
    as [[st1 [r|e|]] net1]; simpl in Hid;
    [|simpl; split; [intros _; exact Hid|discriminate]..].
  rewrite <- Hid.
  destruct r as [oid [| | | | |]|name]; simpl;
    try (destruct (String.eqb name "__proto__"); simpl);
    split; congruence.
Qed.

Lemma silent_refl st : silent st st.
Proof. unfold silent. auto. Qed.

Lemma silent_trans a b c : silent a b -> silent b c -> silent a c.
Proof.
  unfold silent. intros Hab Hbc Ha.
  destruct (Hab Ha) as [Hb Hcb]. destruct (Hbc Hb) as [Hc Hcc].
  split; congruence.
Qed.

Lemma silent_debug_log line st : silent st (debug_log line st).
Proof. unfold silent, debug_log. intros Hs. rewrite Hs. auto. Qed.

Lemma silent_deliver endpoint ev st rq :
  silent st (fst (deliver JSON_parse endpoint ev st rq)).
Proof.
  destruct ev as [code|chunk| |msg|]; simpl.
  - destruct (responded rq); simpl; [apply silent_refl|].
    unfold on_response. destruct (400 <=? code); simpl;
      [unfold silent; simpl; auto|apply silent_refl].
  - destruct (listening rq); apply silent_refl.
  - destruct (listening rq); simpl; [|apply silent_refl].
    unfold on_end. destruct (JSON_parse (responseData rq)); simpl;
      [|unfold silent; simpl; auto].
    eapply silent_trans; [|apply silent_debug_log].
    eapply silent_trans; [|apply silent_debug_log].
    unfold silent; simpl; auto.
  - unfold silent; simpl; auto.
  - destruct (aborted rq); simpl; [apply silent_refl|].
    unfold silent; simpl; auto.
Qed.

Lemma silent_deliver_all endpoint evs st rq :
  silent st (fst (deliver_all JSON_parse endpoint evs st rq)).
Proof.
  revert st rq.
  induction evs as [|ev evs IH]; intros st rq; simpl; [apply silent_refl|].
  pose proof (silent_deliver endpoint ev st rq) as Hev.
  destruct (deliver _ _ _ _ _) as [st' rq']. simpl in Hev.
  eapply silent_trans; [exact Hev|apply IH].
Qed.

Lemma fetchResource_silent endpoint :
  all_acts silent (fetchResource JSON_parse endpoint).
Proof.
  unfold fetchResource, Get. simpl. split; [apply silent_refl|]. intros st.
  destruct (cache_hit (cache st) endpoint); simpl.
  - split; [intros; apply silent_debug_log|auto].
  - split; [unfold silent; simpl; auto|]. intros _ evs.
    split; [|intros rq].
    + intros st'. apply silent_deliver_all.
    + unfold await_promise. destruct (settled rq) as [[[? ?]|?]|]; simpl; auto.
Qed.

(** With verbose logging off, the Fetch Client and the stats report
    write nothing to the console. *)
Theorem quiet_mode st net endpoint :
  debugMode st = false ->
  console (fst (run (fetchResource JSON_parse endpoint) st net)) = console st /\
  console (fst (run displayStats st net)) = console st.
Proof.
  intros Hquiet. split.
  - apply (all_acts_exec silent (fetchResource JSON_parse endpoint)
             silent_refl silent_trans (fetchResource_silent endpoint) st net).
    exact Hquiet.
  - unfold run, displayStats, Get. cbn [exec]. rewrite Hquiet. reflexivity.
Qed.

End CharacterAndVehicleDisplay.



Lemma quiet_mode_witness :
  debugMode (startup ["--no-debug"]) = false /\
  console (fst (run (fetchResource parse_example "people/1")
                    (startup ["--no-debug"])
                    [complete_response 200 ["{}"]])) =
    console (startup ["--no-debug"]).
Proof.
  split; [reflexivity|].
  apply (quiet_mode parse_example (startup ["--no-debug"])
           [complete_response 200 ["{}"]] "people/1").
  reflexivity.
Defined.

(** ** The stats route right after start-up *)

Section Stats.

Variable JSON_parse : string -> option json.
Variable JSON_stringify : json -> string.
Variable js_lt : Z -> json -> option bool.
Variable Date_parse : string -> option Z.
Variable sort_undated : list (option Z * json) -> list json.


End Stats.
